(** * VPA recommender entry point (vertical-pod-autoscaler/pkg/recommender/main.go)

    A shallow embedding of [main]: the command-line flags are a record, the
    calls [main] makes into other packages are events of a trace, the two
    calls whose result [main] inspects ([time.ParseDuration] and
    [history.NewPrometheusHistoryProvider]) and the one that may end the
    process by itself ([common.CreateKubeConfigOrDie]) are oracles of a
    [World], and [klog.Fatalf] ends the run.  The ticker loop at the end of
    [main] is a labelled transition system over the control points of the
    loop body and the one-slot channel returned by [time.Tick]. *)

From Stdlib Require Import ZArith List String Bool Lia Floats.
Import ListNotations.
Local Open Scope string_scope.
Local Open Scope list_scope.
Local Open Scope Z_scope.

Set Implicit Arguments.

(** ** Go values used by [main] *)

Module Go.

(** [time.Duration] is an [int64] count of nanoseconds. *)
Definition Duration := Z.

(** Two's complement wrap-around of [int64] arithmetic. *)
Definition wrap64 (z : Z) : Z := (z + 2 ^ 63) mod 2 ^ 64 - 2 ^ 63.

Definition Second : Duration := 1000000000.
Definition Minute : Duration := 60 * Second.
Definition Hour : Duration := 60 * Minute.

(** [a * b] on [time.Duration]. *)
Definition dmul (a b : Duration) : Duration := wrap64 (a * b).

(** A Go [(T, error)] result; the error is kept as its [%v] rendering. *)
Inductive Result (T : Type) : Type :=
| Ok (v : T)
| Err (e : string).
Arguments Err {T} e.

End Go.
Import Go.

(** ** Command-line flags

    One field per [flag.*] variable of main.go, under the variable's name. *)

Record Flags : Type := mkFlags {
  recommenderName : string;
  metricsFetcherInterval : Duration;
  checkpointsGCInterval : Duration;
  prometheusAddress : string;
  prometheusJobName : string;
  address : string;
  kubeconfig : string;
  kubeApiQps : float;
  kubeApiBurst : float;
  storage : string;
  historyLength : string;
  historyResolution : string;
  queryTimeout : string;
  podLabelPrefix : string;
  podLabelsMetricName : string;
  podNamespaceLabel : string;
  podNameLabel : string;
  ctrNamespaceLabel : string;
  ctrPodNameLabel : string;
  ctrNameLabel : string;
  vpaObjectNamespace : string;
  memoryAggregationInterval : Duration;
  memoryAggregationIntervalCount : Z;
  memoryHistogramDecayHalfLife : Duration;
  cpuHistogramDecayHalfLife : Duration;
  postProcessorCPUasInteger : bool
}.

Section Defaults.

(** Constants of the packages [input], [model] and [apiv1] that main.go
    uses as flag defaults; their declarations are outside this file. *)
Variable DefaultRecommenderName : string.
Variable NamespaceAll : string.
Variable DefaultMemoryAggregationInterval : Duration.
Variable DefaultMemoryAggregationIntervalCount : Z.
Variable DefaultMemoryHistogramDecayHalfLife : Duration.
Variable DefaultCPUHistogramDecayHalfLife : Duration.

(** The value every flag has when the command line sets none. *)
Definition defaultFlags : Flags := {|
  recommenderName := DefaultRecommenderName;
  metricsFetcherInterval := 1 * Minute;
  checkpointsGCInterval := 10 * Minute;
  prometheusAddress := "";
  prometheusJobName := "kubernetes-cadvisor";
  address := ":8942";
  kubeconfig := "";
  kubeApiQps := 5%float;
  kubeApiBurst := 10%float;
  storage := "";
  historyLength := "8d";
  historyResolution := "1h";
  queryTimeout := "5m";
  podLabelPrefix := "pod_label_";
  podLabelsMetricName :=
    ("up{job=" ++ String (Ascii.ascii_of_nat 34) "kubernetes-pods"
       ++ String (Ascii.ascii_of_nat 34) "}")%string;
  podNamespaceLabel := "kubernetes_namespace";
  podNameLabel := "kubernetes_pod_name";
  ctrNamespaceLabel := "namespace";
  ctrPodNameLabel := "pod_name";
  ctrNameLabel := "name";
  vpaObjectNamespace := NamespaceAll;
  memoryAggregationInterval := DefaultMemoryAggregationInterval;
  memoryAggregationIntervalCount := DefaultMemoryAggregationIntervalCount;
  memoryHistogramDecayHalfLife := DefaultMemoryHistogramDecayHalfLife;
  cpuHistogramDecayHalfLife := DefaultCPUHistogramDecayHalfLife;
  postProcessorCPUasInteger := false
|}.

End Defaults.

(** ** Values passed between [main] and the packages it calls *)

(** The two implementations of [routines.RecommendationPostProcessor] that
    main.go instantiates. *)
Inductive RecommendationPostProcessor : Type :=
| IntegerCPUPostProcessor
| CappingPostProcessor.

(** The [*rest.Config] built from the kubeconfig path and the API rate
    limits ([float32(qps)] and [int(burst)] are taken at the call). *)
Inductive RestConfig : Type :=
| restConfig (path : string) (qps burst : float).

(** Argument of [model.NewAggregationsConfig]. *)
Record AggregationsConfig : Type := NewAggregationsConfig {
  MemoryAggregationInterval : Duration;
  MemoryAggregationIntervalCount : Z;
  MemoryHistogramDecayHalfLife : Duration;
  CPUHistogramDecayHalfLife : Duration
}.

(** [history.PrometheusHistoryProviderConfig], with the fields main.go sets. *)
Record PrometheusHistoryProviderConfig : Type := {
  Address : string;
  QueryTimeout : Duration;
  HistoryLength : string;
  HistoryResolution : string;
  PodLabelPrefix : string;
  PodLabelsMetricName : string;
  PodNamespaceLabel : string;
  PodNameLabel : string;
  CtrNamespaceLabel : string;
  CtrPodNameLabel : string;
  CtrNameLabel : string;
  CadvisorMetricsJobName : string;
  Namespace : string
}.

Inductive HistoryProvider : Type :=
| prometheusHistoryProvider (cfg : PrometheusHistoryProviderConfig).

(** ** Events

    Every call [main] makes outside main.go, with the arguments it passes
    (the log line of [klog.V(1).Infof] apart), and the two things the
    environment does to the running loop: the ticker firing and a
    termination signal reaching the process. *)
Inductive Event : Type :=
| klog_InitFlags
| kube_flag_InitFlags
| klog_Infof
| CreateKubeConfigOrDie (path : string) (qps burst : float)
| InitializeAggregationsConfig (cfg : AggregationsConfig)
| NewHealthCheck (activityTimeout : Duration) (checkTimeout : bool)
| metrics_Initialize (addr : string)
| metrics_recommender_Register
| metrics_quality_Register
| NewRecommender (config : RestConfig) (gcInterval : Duration)
    (useCheckpoints : bool) (namespace : string) (name : string)
    (postProcessors : list RecommendationPostProcessor)
| time_ParseDuration (s : string)
| klog_Fatalf (msg : string)
| GetClusterStateFeeder
| InitFromCheckpoints
| NewPrometheusHistoryProvider (cfg : PrometheusHistoryProviderConfig)
| InitFromHistoryProvider (provider : HistoryProvider)
| time_Tick (d : Duration)
| TimerFire
| RecvTick
| RunOnce_call
| RunOnce_return
| UpdateLastActivity
| Signal.

(** Recognisers used to count and to project traces. *)
Definition is_InitFromCheckpoints (e : Event) : bool :=
  match e with InitFromCheckpoints => true | _ => false end.
Definition is_InitFromHistoryProvider (e : Event) : bool :=
  match e with InitFromHistoryProvider _ => true | _ => false end.
Definition is_RunOnce_call (e : Event) : bool :=
  match e with RunOnce_call => true | _ => false end.
Definition is_RunOnce_return (e : Event) : bool :=
  match e with RunOnce_return => true | _ => false end.
Definition is_UpdateLastActivity (e : Event) : bool :=
  match e with UpdateLastActivity => true | _ => false end.
Definition is_klog_Fatalf (e : Event) : bool :=
  match e with klog_Fatalf _ => true | _ => false end.
Definition is_NewRecommender (e : Event) : bool :=
  match e with NewRecommender _ _ _ _ _ _ => true | _ => false end.

(** Events of the environment, as opposed to steps of the main goroutine. *)
Definition is_env (e : Event) : bool :=
  match e with TimerFire | Signal => true | _ => false end.

Definition count (p : Event -> bool) (tr : list Event) : nat :=
  List.length (filter p tr).

(** ** The world outside main.go *)

Record World : Type := {
  (** [common.CreateKubeConfigOrDie]: [None] when it ends the process. *)
  createKubeConfigOrDie : string -> float -> float -> option RestConfig;
  (** [time.ParseDuration]. *)
  ParseDuration : string -> Result Duration;
  (** [history.NewPrometheusHistoryProvider]. *)
  newPrometheusHistoryProvider :
    PrometheusHistoryProviderConfig -> Result HistoryProvider
}.

(** ** Runs of [main] up to a process exit *)

(** Why a process ended. *)
Inductive Exit : Type :=
| ExitKubeConfig
| ExitFatalf (msg : string)
| ExitSignal.

Inductive Outcome (A : Type) : Type :=
| Returns (a : A)
| Exits (x : Exit).
Arguments Exits {A} x.

(** A computation logs the calls it makes and either returns or exits. *)
Definition Proc (A : Type) : Type := (list Event * Outcome A)%type.

Definition ret {A} (a : A) : Proc A := ([], Returns a).

Definition bind {A B} (m : Proc A) (k : A -> Proc B) : Proc B :=
  match m with
  | (tr, Returns a) => let (tr', o) := k a in (tr ++ tr', o)
  | (tr, Exits x) => (tr, Exits x)
  end.

Definition call (e : Event) : Proc unit := ([e], Returns tt).

(** [klog.Fatalf]: log the message, then exit. *)
Definition Fatalf {A} (msg : string) : Proc A :=
  ([klog_Fatalf msg], Exits (ExitFatalf msg)).

Declare Scope proc_scope.
Delimit Scope proc_scope with proc.
Notation "x <- m ;; k" := (bind m (fun x => k))
  (at level 61, m at next level, right associativity) : proc_scope.
Notation "m ;;; k" := (bind m (fun _ => k))
  (at level 61, right associativity) : proc_scope.
Local Open Scope proc_scope.

Definition trace_of {A} (m : Proc A) : list Event := fst m.
Definition outcome_of {A} (m : Proc A) : Outcome A := snd m.

Definition exited {A} (m : Proc A) : bool :=
  match outcome_of m with Exits _ => true | Returns _ => false end.

(** ** [main], from its first statement to the creation of the ticker *)

(** [useCheckpoints := *storage != "prometheus"] *)
Definition useCheckpoints (f : Flags) : bool :=
  negb (String.eqb (storage f) "prometheus").

(** The slice built by the two [append]s, starting from the nil slice. *)
Definition postProcessors (f : Flags) : list RecommendationPostProcessor :=
  let postProcessors := [] in
  let postProcessors :=
    if postProcessorCPUasInteger f
    then postProcessors ++ [IntegerCPUPostProcessor]
    else postProcessors in
  postProcessors ++ [CappingPostProcessor].

(** The [history.PrometheusHistoryProviderConfig] literal of the
    [else] branch. *)
Definition historyConfig (f : Flags) (promQueryTimeout : Duration)
  : PrometheusHistoryProviderConfig := {|
  Address := prometheusAddress f;
  QueryTimeout := promQueryTimeout;
  HistoryLength := historyLength f;
  HistoryResolution := historyResolution f;
  PodLabelPrefix := podLabelPrefix f;
  PodLabelsMetricName := podLabelsMetricName f;
  PodNamespaceLabel := podNamespaceLabel f;
  PodNameLabel := podNameLabel f;
  CtrNamespaceLabel := ctrNamespaceLabel f;
  CtrPodNameLabel := ctrPodNameLabel f;
  CtrNameLabel := ctrNameLabel f;
  CadvisorMetricsJobName := prometheusJobName f;
  Namespace := vpaObjectNamespace f
|}.

Definition parseFatalMsg (err : string) : string :=
  ("Could not parse --prometheus-query-timeout as a time.Duration: " ++ err)%string.

Definition providerFatalMsg (err : string) : string :=
  ("Could not initialize history provider: " ++ err)%string.

Section Main.

Variable w : World.
Variable f : Flags.

Definition callCreateKubeConfigOrDie : Proc RestConfig :=
  call (CreateKubeConfigOrDie (kubeconfig f) (kubeApiQps f) (kubeApiBurst f)) ;;;
  match createKubeConfigOrDie w (kubeconfig f) (kubeApiQps f) (kubeApiBurst f) with
  | Some config => ret config
  | None => ([], Exits ExitKubeConfig)
  end.

(** [promQueryTimeout, err := time.ParseDuration] of the query-timeout
    flag, and the [if err != nil] that follows it. *)
Definition parseQueryTimeout : Proc Duration :=
  call (time_ParseDuration (queryTimeout f)) ;;;
  match ParseDuration w (queryTimeout f) with
  | Ok promQueryTimeout => ret promQueryTimeout
  | Err err => Fatalf (parseFatalMsg err)
  end.

(** The [if useCheckpoints { ... } else { ... }] statement. *)
Definition initClusterState (promQueryTimeout : Duration) : Proc unit :=
  if useCheckpoints f then
    call GetClusterStateFeeder ;;;
    call InitFromCheckpoints
  else
    let config := historyConfig f promQueryTimeout in
    call (NewPrometheusHistoryProvider config) ;;;
    match newPrometheusHistoryProvider w config with
    | Err err => Fatalf (providerFatalMsg err)
    | Ok provider =>
        call GetClusterStateFeeder ;;;
        call (InitFromHistoryProvider provider)
    end.

(** Lines 77 to 131 of main.go.  The result is the period handed to
    [time.Tick]. *)
Definition main_startup : Proc Duration :=
  call klog_InitFlags ;;;
  call kube_flag_InitFlags ;;;
  call klog_Infof ;;;
  config <- callCreateKubeConfigOrDie ;;
  call (InitializeAggregationsConfig
          (NewAggregationsConfig (memoryAggregationInterval f)
             (memoryAggregationIntervalCount f)
             (memoryHistogramDecayHalfLife f)
             (cpuHistogramDecayHalfLife f))) ;;;
  call (NewHealthCheck (dmul (metricsFetcherInterval f) 5) true) ;;;
  call (metrics_Initialize (address f)) ;;;
  call metrics_recommender_Register ;;;
  call metrics_quality_Register ;;;
  call (NewRecommender config (checkpointsGCInterval f) (useCheckpoints f)
          (vpaObjectNamespace f) (recommenderName f) (postProcessors f)) ;;;
  promQueryTimeout <- parseQueryTimeout ;;
  initClusterState promQueryTimeout ;;;
  call (time_Tick (metricsFetcherInterval f)) ;;;
  ret (metricsFetcherInterval f).

End Main.

(** ** The ticker loop

    [for range ticker { recommender.RunOnce(); healthCheck.UpdateLastActivity() }] *)

(** Control points of the main goroutine inside the loop. *)
Inductive Ctl : Type :=
| AtRange                 (* blocked in [range ticker] *)
| AtRunOnce               (* a tick was received, [RunOnce] not yet called *)
| InRunOnce               (* inside [recommender.RunOnce()] *)
| AtUpdateLastActivity.   (* [RunOnce] returned, the update not yet made *)

(** The channel returned by [time.Tick d]: nil when [d <= 0], otherwise a
    channel with room for one tick; [Some true] when a tick is waiting. *)
Definition Ticker := option bool.

Definition time_Tick_chan (d : Duration) : Ticker :=
  if d <=? 0 then None else Some false.

Record Loop : Type := mkLoop {
  ctl : Ctl;
  ticker : Ticker
}.

Definition loop_init (d : Duration) : Loop :=
  {| ctl := AtRange; ticker := time_Tick_chan d |}.

(** One step of the loop.  The timer puts a tick in the channel or, when one
    is already waiting, drops it; the main goroutine moves through the body
    and goes back to the [range].  No step leaves the loop. *)
Definition loop_step (l : Loop) (e : Event) : option Loop :=
  match e with
  | TimerFire =>
      match ticker l with
      | Some _ => Some {| ctl := ctl l; ticker := Some true |}
      | None => None
      end
  | RecvTick =>
      match ctl l, ticker l with
      | AtRange, Some true => Some {| ctl := AtRunOnce; ticker := Some false |}
      | _, _ => None
      end
  | RunOnce_call =>
      match ctl l with
      | AtRunOnce => Some {| ctl := InRunOnce; ticker := ticker l |}
      | _ => None
      end
  | RunOnce_return =>
      match ctl l with
      | InRunOnce => Some {| ctl := AtUpdateLastActivity; ticker := ticker l |}
      | _ => None
      end
  | UpdateLastActivity =>
      match ctl l with
      | AtUpdateLastActivity => Some {| ctl := AtRange; ticker := ticker l |}
      | _ => None
      end
  | _ => None
  end.

(** ** The process

    main.go installs no signal handler (it does not import [os/signal]), so
    a termination signal has the Go runtime's default effect: the program
    exits, wherever the main goroutine is. *)
Inductive ProcState : Type :=
| Live (l : Loop)
| Dead (x : Exit).

Definition proc_step (s : ProcState) (e : Event) : option ProcState :=
  match s with
  | Dead _ => None
  | Live l =>
      match e with
      | Signal => Some (Dead ExitSignal)
      | _ => option_map Live (loop_step l e)
      end
  end.

Fixpoint proc_run (s : ProcState) (tr : list Event) : option ProcState :=
  match tr with
  | [] => Some s
  | e :: tr' =>
      match proc_step s e with
      | Some s' => proc_run s' tr'
      | None => None
      end
  end.

(** A run of the whole program: the startup, then the events [sched] of the
    loop.  The result is the full trace and the state reached, or [None]
    when [sched] is not a possible continuation. *)
Definition main_run (w : World) (f : Flags) (sched : list Event)
  : option (list Event * ProcState) :=
  match main_startup w f with
  | (tr, Exits x) =>
      match sched with
      | [] => Some (tr, Dead x)
      | _ :: _ => None
      end
  | (tr, Returns d) =>
      option_map (fun s => (tr ++ sched, s)) (proc_run (Live (loop_init d)) sched)
  end.

(** ** Command lines that differ in one flag *)

Definition withStorage (s : string) (f : Flags) : Flags :=
  mkFlags (recommenderName f) (metricsFetcherInterval f) (checkpointsGCInterval f)
    (prometheusAddress f) (prometheusJobName f) (address f) (kubeconfig f)
    (kubeApiQps f) (kubeApiBurst f) s (historyLength f) (historyResolution f)
    (queryTimeout f) (podLabelPrefix f) (podLabelsMetricName f)
    (podNamespaceLabel f) (podNameLabel f) (ctrNamespaceLabel f)
    (ctrPodNameLabel f) (ctrNameLabel f) (vpaObjectNamespace f)
    (memoryAggregationInterval f) (memoryAggregationIntervalCount f)
    (memoryHistogramDecayHalfLife f) (cpuHistogramDecayHalfLife f)
    (postProcessorCPUasInteger f).

Definition withQueryTimeout (s : string) (f : Flags) : Flags :=
  mkFlags (recommenderName f) (metricsFetcherInterval f) (checkpointsGCInterval f)
    (prometheusAddress f) (prometheusJobName f) (address f) (kubeconfig f)
    (kubeApiQps f) (kubeApiBurst f) (storage f) (historyLength f) (historyResolution f)
    s (podLabelPrefix f) (podLabelsMetricName f)
    (podNamespaceLabel f) (podNameLabel f) (ctrNamespaceLabel f)
    (ctrPodNameLabel f) (ctrNameLabel f) (vpaObjectNamespace f)
    (memoryAggregationInterval f) (memoryAggregationIntervalCount f)
    (memoryHistogramDecayHalfLife f) (cpuHistogramDecayHalfLife f)
    (postProcessorCPUasInteger f).

Definition withCPUasInteger (b : bool) (f : Flags) : Flags :=
  mkFlags (recommenderName f) (metricsFetcherInterval f) (checkpointsGCInterval f)
    (prometheusAddress f) (prometheusJobName f) (address f) (kubeconfig f)
    (kubeApiQps f) (kubeApiBurst f) (storage f) (historyLength f) (historyResolution f)
    (queryTimeout f) (podLabelPrefix f) (podLabelsMetricName f)
    (podNamespaceLabel f) (podNameLabel f) (ctrNamespaceLabel f)
    (ctrPodNameLabel f) (ctrNameLabel f) (vpaObjectNamespace f)
    (memoryAggregationInterval f) (memoryAggregationIntervalCount f)
    (memoryHistogramDecayHalfLife f) (cpuHistogramDecayHalfLife f)
    b.

Definition withMetricsFetcherInterval (d : Duration) (f : Flags) : Flags :=
  mkFlags (recommenderName f) d (checkpointsGCInterval f)
    (prometheusAddress f) (prometheusJobName f) (address f) (kubeconfig f)
    (kubeApiQps f) (kubeApiBurst f) (storage f) (historyLength f) (historyResolution f)
    (queryTimeout f) (podLabelPrefix f) (podLabelsMetricName f)
    (podNamespaceLabel f) (podNameLabel f) (ctrNamespaceLabel f)
    (ctrPodNameLabel f) (ctrNameLabel f) (vpaObjectNamespace f)
    (memoryAggregationInterval f) (memoryAggregationIntervalCount f)
    (memoryHistogramDecayHalfLife f) (cpuHistogramDecayHalfLife f)
    (postProcessorCPUasInteger f).

Definition withCheckpointsGCInterval (d : Duration) (f : Flags) : Flags :=
  mkFlags (recommenderName f) (metricsFetcherInterval f) d
    (prometheusAddress f) (prometheusJobName f) (address f) (kubeconfig f)
    (kubeApiQps f) (kubeApiBurst f) (storage f) (historyLength f) (historyResolution f)
    (queryTimeout f) (podLabelPrefix f) (podLabelsMetricName f)
    (podNamespaceLabel f) (podNameLabel f) (ctrNamespaceLabel f)
    (ctrPodNameLabel f) (ctrNameLabel f) (vpaObjectNamespace f)
    (memoryAggregationInterval f) (memoryAggregationIntervalCount f)
    (memoryHistogramDecayHalfLife f) (cpuHistogramDecayHalfLife f)
    (postProcessorCPUasInteger f).

(** ** Concrete worlds and command lines *)

Module Examples.

Definition quote (s : string) : string :=
  (String (Ascii.ascii_of_nat 34) s ++ String (Ascii.ascii_of_nat 34) "")%string.

(** An extract of [time.ParseDuration]: the four durations below, as the
    Go library reads them, and the library's error for a string that is
    no duration, such as the empty string or a word. *)
Definition parseDurationTable (s : string) : Result Duration :=
  if String.eqb s "5m" then Ok (5 * Minute)
  else if String.eqb s "30s" then Ok (30 * Second)
  else if String.eqb s "1h" then Ok Hour
  else if String.eqb s "0" then Ok 0
  else Err ("time: invalid duration " ++ quote s)%string.

(** A cluster that can be reached and a Prometheus client that can be
    built. *)
Definition healthyWorld : World := {|
  createKubeConfigOrDie := fun path qps burst => Some (restConfig path qps burst);
  ParseDuration := parseDurationTable;
  newPrometheusHistoryProvider := fun cfg => Ok (prometheusHistoryProvider cfg)
|}.

(** The same, but the Prometheus client cannot be built. *)
Definition brokenPrometheusWorld : World := {|
  createKubeConfigOrDie := fun path qps burst => Some (restConfig path qps burst);
  ParseDuration := parseDurationTable;
  newPrometheusHistoryProvider := fun cfg => Err "parse address: invalid URL"
|}.

(** No flag on the command line; the defaults of the packages are the
    upstream ones. *)
Definition noFlags : Flags :=
  defaultFlags "default" "" (24 * Hour) 8 (24 * Hour) (24 * Hour).

End Examples.

Import Examples.

(** * Vocabulary of the properties *)

Unset Implicit Arguments.

(** The calls up to and including [time.ParseDuration], once the kube
    config is there. *)
Definition startup_prefix (f : Flags) (config : RestConfig) : list Event :=
  [ klog_InitFlags; kube_flag_InitFlags; klog_Infof;
    CreateKubeConfigOrDie (kubeconfig f) (kubeApiQps f) (kubeApiBurst f);
    InitializeAggregationsConfig
      (NewAggregationsConfig (memoryAggregationInterval f)
         (memoryAggregationIntervalCount f)
         (memoryHistogramDecayHalfLife f)
         (cpuHistogramDecayHalfLife f));
    NewHealthCheck (dmul (metricsFetcherInterval f) 5) true;
    metrics_Initialize (address f);
    metrics_recommender_Register;
    metrics_quality_Register;
    NewRecommender config (checkpointsGCInterval f) (useCheckpoints f)
      (vpaObjectNamespace f) (recommenderName f) (postProcessors f);
    time_ParseDuration (queryTimeout f) ].

(** The five ways [main] can go before the loop. *)
Inductive StartupCase (w : World) (f : Flags) : Proc Duration -> Prop :=
| KubeConfigDies :
    createKubeConfigOrDie w (kubeconfig f) (kubeApiQps f) (kubeApiBurst f) = None ->
    StartupCase w f
      ([ klog_InitFlags; kube_flag_InitFlags; klog_Infof;
         CreateKubeConfigOrDie (kubeconfig f) (kubeApiQps f) (kubeApiBurst f) ],
       Exits ExitKubeConfig)
| QueryTimeoutRefused config err :
    createKubeConfigOrDie w (kubeconfig f) (kubeApiQps f) (kubeApiBurst f) = Some config ->
    ParseDuration w (queryTimeout f) = Err err ->
    StartupCase w f
      (startup_prefix f config ++ [klog_Fatalf (parseFatalMsg err)],
       Exits (ExitFatalf (parseFatalMsg err)))
| FromCheckpoints config d :
    createKubeConfigOrDie w (kubeconfig f) (kubeApiQps f) (kubeApiBurst f) = Some config ->
    ParseDuration w (queryTimeout f) = Ok d ->
    useCheckpoints f = true ->
    StartupCase w f
      (startup_prefix f config
         ++ [GetClusterStateFeeder; InitFromCheckpoints;
             time_Tick (metricsFetcherInterval f)],
       Returns (metricsFetcherInterval f))
| ProviderRefused config d err :
    createKubeConfigOrDie w (kubeconfig f) (kubeApiQps f) (kubeApiBurst f) = Some config ->
    ParseDuration w (queryTimeout f) = Ok d ->
    useCheckpoints f = false ->
    newPrometheusHistoryProvider w (historyConfig f d) = Err err ->
    StartupCase w f
      (startup_prefix f config
         ++ [NewPrometheusHistoryProvider (historyConfig f d);
             klog_Fatalf (providerFatalMsg err)],
       Exits (ExitFatalf (providerFatalMsg err)))
| FromHistory config d provider :
    createKubeConfigOrDie w (kubeconfig f) (kubeApiQps f) (kubeApiBurst f) = Some config ->
    ParseDuration w (queryTimeout f) = Ok d ->
    useCheckpoints f = false ->
    newPrometheusHistoryProvider w (historyConfig f d) = Ok provider ->
    StartupCase w f
      (startup_prefix f config
         ++ [NewPrometheusHistoryProvider (historyConfig f d);
             GetClusterStateFeeder; InitFromHistoryProvider provider;
             time_Tick (metricsFetcherInterval f)],
       Returns (metricsFetcherInterval f)).

Definition is_loop_event (e : Event) : bool :=
  match e with
  | TimerFire | RecvTick | RunOnce_call | RunOnce_return
  | UpdateLastActivity | Signal => true
  | _ => false
  end.

(** The claim that every run calls exactly one of the two initialisers. *)
Definition exactly_one_init (w : World) (f : Flags) : Prop :=
  forall sched tr s,
    main_run w f sched = Some (tr, s) ->
    (count is_InitFromCheckpoints tr + count is_InitFromHistoryProvider tr = 1)%nat.

(** The calls by which [main] sets a period of the reconciliation side: the
    ticker and the health check's activity timeout. *)
Definition is_reconciliation_timer (e : Event) : bool :=
  match e with
  | time_Tick _ | NewHealthCheck _ _ => true
  | _ => false
  end.

Ltac startup_by_cases w f :=
  unfold main_startup, initClusterState, parseQueryTimeout,
    callCreateKubeConfigOrDie, historyConfig, useCheckpoints; cbn;
  destruct (createKubeConfigOrDie w (kubeconfig f) (kubeApiQps f) (kubeApiBurst f));
    cbn; [|reflexivity];
  destruct (ParseDuration w (queryTimeout f)); cbn; [|reflexivity];
  destruct (negb (String.eqb (storage f) "prometheus")); cbn; [reflexivity|];
  match goal with
  | |- context [newPrometheusHistoryProvider w ?c] =>
      destruct (newPrometheusHistoryProvider w c); reflexivity
  end.

Definition is_TimerFire (e : Event) : bool :=
  match e with TimerFire => true | _ => false end.
Definition is_RecvTick (e : Event) : bool :=
  match e with RecvTick => true | _ => false end.

(** The last and the first step of the main goroutine in a trace, the
    events of the environment left aside. *)
Definition later_main (acc : option Event) (e : Event) : option Event :=
  if is_env e then acc else Some e.

Definition last_main (tr : list Event) : option Event :=
  fold_left later_main tr None.

Fixpoint first_main (tr : list Event) : option Event :=
  match tr with
  | [] => None
  | e :: tr' => if is_env e then first_main tr' else Some e
  end.

(** How far the main goroutine is in the current turn of the loop. *)
Definition received (l : Loop) : nat :=
  match ctl l with AtRange => 0 | _ => 1 end.
Definition called (l : Loop) : nat :=
  match ctl l with InRunOnce | AtUpdateLastActivity => 1 | _ => 0 end.
Definition returned (l : Loop) : nat :=
  match ctl l with AtUpdateLastActivity => 1 | _ => 0 end.
Definition buffered (l : Loop) : nat :=
  match ticker l with Some true => 1 | _ => 0 end.

(** The counts of a trace of the loop that leads from its start to [l]. *)
Definition balanced (tr : list Event) (l : Loop) : Prop :=
  count is_RecvTick tr = (count is_UpdateLastActivity tr + received l)%nat
  /\ count is_RunOnce_call tr = (count is_UpdateLastActivity tr + called l)%nat
  /\ count is_RunOnce_return tr = (count is_UpdateLastActivity tr + returned l)%nat
  /\ (count is_RecvTick tr + buffered l <= count is_TimerFire tr)%nat.

(** The claim that a process that has ended left no [RunOnce] unfinished. *)
Definition in_flight_RunOnce_finishes (w : World) (f : Flags) : Prop :=
  forall sched tr x,
    main_run w f sched = Some (tr, Dead x) ->
    count is_RunOnce_return tr = count is_RunOnce_call tr.

(** The command line [f] with the flags of the Prometheus history provider
    (address, job name, history length and resolution, label names) taken
    from [h]; the query timeout, which [main] parses in every mode, stays
    the one of [f]. *)
Definition withHistoryFlagsOf (h f : Flags) : Flags :=
  mkFlags (recommenderName f) (metricsFetcherInterval f) (checkpointsGCInterval f)
    (prometheusAddress h) (prometheusJobName h) (address f) (kubeconfig f)
    (kubeApiQps f) (kubeApiBurst f) (storage f) (historyLength h) (historyResolution h)
    (queryTimeout f) (podLabelPrefix h) (podLabelsMetricName h)
    (podNamespaceLabel h) (podNameLabel h) (ctrNamespaceLabel h)
    (ctrPodNameLabel h) (ctrNameLabel h) (vpaObjectNamespace f)
    (memoryAggregationInterval f) (memoryAggregationIntervalCount f)
    (memoryHistogramDecayHalfLife f) (cpuHistogramDecayHalfLife f)
    (postProcessorCPUasInteger f).

(** A tick was taken from the channel and [RunOnce] is still to be called. *)
Definition awaiting_call (l : Loop) : nat :=
  match ctl l with AtRunOnce => 1 | _ => 0 end.

Definition is_NewPrometheusHistoryProvider (e : Event) : bool :=
  match e with NewPrometheusHistoryProvider _ => true | _ => false end.

(** * Properties *)

(** ** The model on concrete command lines *)

Example wrap64_in_range (z : Z) :
  - 2 ^ 63 <= z < 2 ^ 63 -> wrap64 z = z.
Proof.
  intros H. unfold wrap64. rewrite Z.mod_small; lia.
Qed.

Example health_check_timeout_default :
  dmul (metricsFetcherInterval noFlags) 5 = 5 * Minute.
Proof. reflexivity. Qed.

Example health_check_timeout_wraps :
  dmul (2 ^ 62) 5 = 2 ^ 62.
Proof. reflexivity. Qed.

Example chain_without_rounding :
  postProcessors noFlags = [CappingPostProcessor].
Proof. reflexivity. Qed.

Example chain_with_rounding :
  postProcessors (withCPUasInteger true noFlags)
  = [IntegerCPUPostProcessor; CappingPostProcessor].
Proof. reflexivity. Qed.

Example storage_values :
  useCheckpoints noFlags = true
  /\ useCheckpoints (withStorage "checkpoint" noFlags) = true
  /\ useCheckpoints (withStorage "historical" noFlags) = true
  /\ useCheckpoints (withStorage "Prometheus" noFlags) = true
  /\ useCheckpoints (withStorage "prometheus" noFlags) = false.
Proof. repeat split. Qed.

Example default_startup :
  main_startup healthyWorld noFlags
  = (startup_prefix noFlags (restConfig "" 5%float 10%float)
       ++ [GetClusterStateFeeder; InitFromCheckpoints; time_Tick Minute],
     Returns Minute).
Proof. reflexivity. Qed.

Example two_turns_of_the_loop :
  option_map snd
    (main_run healthyWorld noFlags
       [TimerFire; RecvTick; RunOnce_call; TimerFire; TimerFire; RunOnce_return;
        UpdateLastActivity; RecvTick; RunOnce_call; RunOnce_return;
        UpdateLastActivity])
  = Some (Live {| ctl := AtRange; ticker := Some false |}).
Proof. reflexivity. Qed.

Example no_second_RunOnce_before_the_return :
  main_run healthyWorld noFlags
    [TimerFire; RecvTick; RunOnce_call; TimerFire; RecvTick] = None.
Proof. reflexivity. Qed.

Example nil_ticker_never_fires :
  main_run healthyWorld (withMetricsFetcherInterval 0 noFlags) [TimerFire] = None.
Proof. reflexivity. Qed.

(** ** The startup, case by case *)

Lemma main_startup_case (w : World) (f : Flags) :
  StartupCase w f (main_startup w f).
Proof.
  unfold main_startup, callCreateKubeConfigOrDie, parseQueryTimeout, initClusterState.
  destruct (createKubeConfigOrDie w (kubeconfig f) (kubeApiQps f) (kubeApiBurst f))
    as [config|] eqn:Hk; cbn.
  2: { now apply KubeConfigDies. }
  destruct (ParseDuration w (queryTimeout f)) as [d|err] eqn:Hp; cbn.
  2: { now apply (QueryTimeoutRefused w f config err Hk Hp). }
  destruct (useCheckpoints f) eqn:Hu; cbn.
  - generalize (FromCheckpoints w f config d Hk Hp Hu).
    unfold startup_prefix; rewrite Hu; cbn; trivial.
  - destruct (newPrometheusHistoryProvider w (historyConfig f d)) as [pr|err] eqn:Hn; cbn.
    + generalize (FromHistory w f config d pr Hk Hp Hu Hn).
      unfold startup_prefix; rewrite Hu; cbn; trivial.
    + generalize (ProviderRefused w f config d err Hk Hp Hu Hn).
      unfold startup_prefix; rewrite Hu; cbn; trivial.
Qed.

Lemma useCheckpoints_false (f : Flags) :
  useCheckpoints f = false <-> storage f = "prometheus".
Proof.
  unfold useCheckpoints. rewrite negb_false_iff. apply String.eqb_eq.
Qed.

Lemma useCheckpoints_true (f : Flags) :
  useCheckpoints f = true <-> storage f <> "prometheus".
Proof.
  unfold useCheckpoints. rewrite negb_true_iff. apply String.eqb_neq.
Qed.

(** What [routines.NewRecommender] is called with, whenever it is called. *)
Lemma NewRecommender_arguments (w : World) (f : Flags)
    config gc uc ns name pps :
  In (NewRecommender config gc uc ns name pps) (trace_of (main_startup w f)) ->
  createKubeConfigOrDie w (kubeconfig f) (kubeApiQps f) (kubeApiBurst f) = Some config
  /\ gc = checkpointsGCInterval f
  /\ uc = useCheckpoints f
  /\ ns = vpaObjectNamespace f
  /\ name = recommenderName f
  /\ pps = postProcessors f.
Proof.
  intros Hin.
  destruct (main_startup_case w f) as [Hk|c err Hk Hp|c d Hk Hp Hu|c d err Hk Hp Hu Hn|c d pr Hk Hp Hu Hn];
    cbn in Hin;
    repeat (destruct Hin as [Hin|Hin]; [try discriminate Hin|]);
    try contradiction;
    injection Hin as <- <- <- <- <- <-; auto 10.
Qed.

(** [routines.NewRecommender] is called as soon as the kube config is there. *)
Lemma NewRecommender_called (w : World) (f : Flags) config :
  createKubeConfigOrDie w (kubeconfig f) (kubeApiQps f) (kubeApiBurst f) = Some config ->
  In (NewRecommender config (checkpointsGCInterval f) (useCheckpoints f)
        (vpaObjectNamespace f) (recommenderName f) (postProcessors f))
     (trace_of (main_startup w f)).
Proof.
  intros Hk.
  destruct (main_startup_case w f) as [Hk'|c err Hk' Hp|c d Hk' Hp Hu|c d err Hk' Hp Hu Hn|c d pr Hk' Hp Hu Hn];
    rewrite Hk in Hk'; try discriminate Hk';
    injection Hk' as <-; cbn; auto 12.
Qed.

(** ** The post-processor chain *)

Lemma postProcessors_cases (f : Flags) :
  postProcessors f =
    if postProcessorCPUasInteger f
    then [IntegerCPUPostProcessor; CappingPostProcessor]
    else [CappingPostProcessor].
Proof.
  unfold postProcessors. now destruct (postProcessorCPUasInteger f).
Qed.

(** C1. Whatever the value of cpu-integer-post-processor-enabled, the chain
    built by [main] is some chain without capping followed by the
    [CappingPostProcessor], so that its last element is the
    [CappingPostProcessor]; and this chain is the one every call of
    [routines.NewRecommender] receives, a call that is made in every run in
    which the kube config is obtained. *)
Theorem capping_post_processor_is_last (w : World) (f : Flags) :
  (exists front,
      postProcessors f = front ++ [CappingPostProcessor]
      /\ ~ In CappingPostProcessor front)
  /\ (forall d, last (postProcessors f) d = CappingPostProcessor)
  /\ (forall config gc uc ns name pps,
        In (NewRecommender config gc uc ns name pps) (trace_of (main_startup w f)) ->
        pps = postProcessors f)
  /\ (forall config,
        createKubeConfigOrDie w (kubeconfig f) (kubeApiQps f) (kubeApiBurst f)
          = Some config ->
        exists gc uc ns name,
          In (NewRecommender config gc uc ns name (postProcessors f))
             (trace_of (main_startup w f))).
Proof.
  split; [|split; [|split]].
  - rewrite postProcessors_cases.
    destruct (postProcessorCPUasInteger f).
    + exists [IntegerCPUPostProcessor]. split; [reflexivity|].
      intros [H|[]]; discriminate H.
    + exists []. split; [reflexivity|]. intros [].
  - intros d. rewrite postProcessors_cases.
    now destruct (postProcessorCPUasInteger f).
  - intros config gc uc ns name pps Hin.
    now apply NewRecommender_arguments in Hin.
  - intros config Hk. do 4 eexists. apply (NewRecommender_called w f config Hk).
Qed.

(** C5. The [IntegerCPUPostProcessor] is in the chain exactly when
    cpu-integer-post-processor-enabled is set; wherever it stands in the
    chain, it stands at a smaller index than every [CappingPostProcessor];
    and when the flag is set the chain is the integer rounding followed by
    the capping. *)
Theorem integer_cpu_opt_in_and_before_capping (f : Flags) :
  (In IntegerCPUPostProcessor (postProcessors f)
     <-> postProcessorCPUasInteger f = true)
  /\ (forall i j,
        nth_error (postProcessors f) i = Some IntegerCPUPostProcessor ->
        nth_error (postProcessors f) j = Some CappingPostProcessor ->
        (i < j)%nat)
  /\ (if postProcessorCPUasInteger f
      then postProcessors f = [IntegerCPUPostProcessor; CappingPostProcessor]
      else postProcessors f = [CappingPostProcessor]).
Proof.
  rewrite postProcessors_cases.
  destruct (postProcessorCPUasInteger f); (split; [|split]); try reflexivity.
  - split; [reflexivity|]. intros _. now left.
  - intros [|[|i]] [|[|j]] Hi Hj; cbn in Hi, Hj;
      try discriminate Hi; try discriminate Hj; try lia;
      destruct i; discriminate Hi.
  - split; [|discriminate]. intros [H|[]]; discriminate H.
  - intros [|i] j Hi Hj; cbn in Hi; try discriminate Hi.
    destruct i; discriminate Hi.
Qed.

(** ** Traces of whole runs *)

Lemma count_app (p : Event -> bool) (a b : list Event) :
  count p (a ++ b) = (count p a + count p b)%nat.
Proof. unfold count. now rewrite filter_app, length_app. Qed.

Lemma count_cons (p : Event -> bool) (e : Event) (a : list Event) :
  count p (e :: a) = ((if p e then 1 else 0) + count p a)%nat.
Proof. unfold count. cbn. now destruct (p e). Qed.

Lemma count_none (p : Event -> bool) (tr : list Event) :
  Forall (fun e => p e = false) tr -> count p tr = 0%nat.
Proof.
  induction 1 as [|e tr He _ IH]; [reflexivity|].
  rewrite count_cons, He, IH. reflexivity.
Qed.

Lemma proc_step_loop_event (s s' : ProcState) (e : Event) :
  proc_step s e = Some s' -> is_loop_event e = true.
Proof.
  destruct s as [l|x]; [|discriminate].
  destruct e; cbn; trivial; discriminate.
Qed.

Lemma proc_run_loop_events (tr : list Event) :
  forall s s', proc_run s tr = Some s' ->
  Forall (fun e => is_loop_event e = true) tr.
Proof.
  induction tr as [|e tr IH]; intros s s' H; [constructor|].
  cbn in H. destruct (proc_step s e) as [s1|] eqn:Hs; [|discriminate].
  constructor; eauto using proc_step_loop_event.
Qed.

Lemma proc_run_app (a b : list Event) :
  forall s, proc_run s (a ++ b) =
            match proc_run s a with
            | Some s' => proc_run s' b
            | None => None
            end.
Proof.
  induction a as [|e a IH]; intros s; cbn; [reflexivity|].
  destruct (proc_step s e); [apply IH|reflexivity].
Qed.

(** A dead process takes no step. *)
Lemma proc_run_dead (x : Exit) (tr : list Event) (s : ProcState) :
  proc_run (Dead x) tr = Some s -> tr = [] /\ s = Dead x.
Proof.
  destruct tr; cbn; [|discriminate]. intros H; injection H as <-. auto.
Qed.

Lemma startup_no_loop_event (w : World) (f : Flags) :
  Forall (fun e => is_loop_event e = false) (trace_of (main_startup w f)).
Proof.
  destruct (main_startup_case w f); cbn; repeat constructor.
Qed.

(** What a run is made of. *)
Lemma main_run_inv (w : World) (f : Flags) sched tr s :
  main_run w f sched = Some (tr, s) ->
  tr = trace_of (main_startup w f) ++ sched
  /\ ((exists d, outcome_of (main_startup w f) = Returns d
                 /\ proc_run (Live (loop_init d)) sched = Some s)
      \/ (exists x, outcome_of (main_startup w f) = Exits x
                    /\ sched = [] /\ s = Dead x)).
Proof.
  unfold main_run, trace_of, outcome_of.
  destruct (main_startup w f) as [st [d|x]]; cbn.
  - destruct (proc_run (Live (loop_init d)) sched) as [s1|] eqn:Hr; cbn; [|discriminate].
    intros H; injection H as <- <-. split; [reflexivity|]. left; eauto.
  - destruct sched; [|discriminate].
    intros H; injection H as <- <-. rewrite app_nil_r. split; [reflexivity|].
    right; eauto.
Qed.

(** A predicate that holds of no loop event counts the same on a run as on
    its startup. *)
Lemma count_run_startup (p : Event -> bool) (w : World) (f : Flags) sched tr s :
  (forall e, is_loop_event e = true -> p e = false) ->
  main_run w f sched = Some (tr, s) ->
  count p tr = count p (trace_of (main_startup w f)).
Proof.
  intros Hp Hrun.
  destruct (main_run_inv _ _ _ _ _ Hrun) as [-> [(d & _ & Hr)|(x & _ & -> & _)]].
  - rewrite count_app, (count_none p sched); [lia|].
    apply proc_run_loop_events in Hr.
    eapply Forall_impl; [|exact Hr]. auto.
  - now rewrite app_nil_r.
Qed.

(** A predicate that holds of loop events only counts the same on a run as
    on the events of its loop. *)
Lemma count_run_loop (p : Event -> bool) (w : World) (f : Flags) sched tr s :
  (forall e, is_loop_event e = false -> p e = false) ->
  main_run w f sched = Some (tr, s) ->
  count p tr = count p sched.
Proof.
  intros Hp Hrun.
  destruct (main_run_inv _ _ _ _ _ Hrun) as [-> _].
  rewrite count_app, (count_none p (trace_of (main_startup w f))); [lia|].
  eapply Forall_impl; [|apply startup_no_loop_event]. auto.
Qed.

(** A run whose startup exits has no loop. *)
Lemma exited_run (w : World) (f : Flags) sched tr s x :
  outcome_of (main_startup w f) = Exits x ->
  main_run w f sched = Some (tr, s) ->
  sched = [] /\ tr = trace_of (main_startup w f) /\ s = Dead x.
Proof.
  intros Hx Hrun.
  destruct (main_run_inv _ _ _ _ _ Hrun) as [-> [(d & Hd & _)|(x' & Hx' & -> & ->)]].
  - rewrite Hd in Hx; discriminate.
  - rewrite Hx' in Hx; injection Hx as ->. now rewrite app_nil_r.
Qed.

(** ** Initialisation of the cluster state *)

(** C2, as stated, fails. With the default storage (checkpoints) and a
    query timeout that is no duration, [main] exits at the [klog.Fatalf] that follows
    [time.ParseDuration], before the [if useCheckpoints]: neither
    initialiser is called. *)
Lemma neither_init_when_query_timeout_refused :
  (exists tr msg,
      main_run healthyWorld (withQueryTimeout "five minutes" noFlags) []
        = Some (tr, Dead (ExitFatalf msg))
      /\ count is_InitFromCheckpoints tr = 0%nat
      /\ count is_InitFromHistoryProvider tr = 0%nat)
  /\ ~ exactly_one_init healthyWorld (withQueryTimeout "five minutes" noFlags).
Proof.
  split.
  - do 2 eexists. split; [reflexivity|]. split; reflexivity.
  - intros H. specialize (H [] _ _ eq_refl). discriminate H.
Qed.

(** C2, amended. In every run the two initialisers are called at most once
    between them, never both; [InitFromCheckpoints] can only be the one
    called when the storage flag is not "prometheus" and
    [InitFromHistoryProvider] only when it is; exactly one of them is called
    when the startup does not end the process, and none when it does. *)
Theorem init_mode_exclusive_and_selected
    (w : World) (f : Flags) (sched tr : list Event) (s : ProcState) :
  main_run w f sched = Some (tr, s) ->
  (count is_InitFromCheckpoints tr + count is_InitFromHistoryProvider tr <= 1)%nat
  /\ (count is_InitFromCheckpoints tr = 1%nat -> storage f <> "prometheus")
  /\ (count is_InitFromHistoryProvider tr = 1%nat -> storage f = "prometheus")
  /\ (exited (main_startup w f) = false ->
      (count is_InitFromCheckpoints tr + count is_InitFromHistoryProvider tr = 1)%nat)
  /\ (exited (main_startup w f) = true ->
      (count is_InitFromCheckpoints tr + count is_InitFromHistoryProvider tr = 0)%nat).
Proof.
  intros Hrun.
  rewrite (count_run_startup is_InitFromCheckpoints w f sched tr s),
          (count_run_startup is_InitFromHistoryProvider w f sched tr s);
    trivial; try (now intros []).
  unfold exited.
  destruct (main_startup_case w f) as [Hk|c err Hk Hp|c d Hk Hp Hu|c d err Hk Hp Hu Hn|c d pr Hk Hp Hu Hn];
    cbn; repeat split; intros; try lia; try discriminate.
  - now apply useCheckpoints_true.
  - now apply useCheckpoints_false.
Qed.

Lemma init_mode_exclusive_and_selected_witness :
  exists tr s,
    main_run healthyWorld (withStorage "prometheus" noFlags) [TimerFire; RecvTick]
      = Some (tr, s)
    /\ (count is_InitFromCheckpoints tr + count is_InitFromHistoryProvider tr = 1)%nat.
Proof.
  eexists _, _. split; [reflexivity|].
  refine (proj1 (proj2 (proj2 (proj2
    (init_mode_exclusive_and_selected healthyWorld
       (withStorage "prometheus" noFlags) [TimerFire; RecvTick] _ _ eq_refl)))) _).
  reflexivity.
Defined.

(** C3. In prometheus mode, when the history provider cannot be built,
    [main] logs the error with [klog.Fatalf] and the process exits: every
    run ends there, dead, with no event of the loop, no [RunOnce] and no
    initialiser called. *)
Theorem history_provider_failure_is_fatal
    (w : World) (f : Flags) (config : RestConfig) (d : Duration) (err : string) :
  storage f = "prometheus" ->
  createKubeConfigOrDie w (kubeconfig f) (kubeApiQps f) (kubeApiBurst f) = Some config ->
  ParseDuration w (queryTimeout f) = Ok d ->
  newPrometheusHistoryProvider w (historyConfig f d) = Err err ->
  outcome_of (main_startup w f) = Exits (ExitFatalf (providerFatalMsg err))
  /\ last (trace_of (main_startup w f)) klog_InitFlags
       = klog_Fatalf (providerFatalMsg err)
  /\ main_run w f [] = Some (trace_of (main_startup w f),
                             Dead (ExitFatalf (providerFatalMsg err)))
  /\ forall sched tr s,
       main_run w f sched = Some (tr, s) ->
       sched = []
       /\ s = Dead (ExitFatalf (providerFatalMsg err))
       /\ count is_RunOnce_call tr = 0%nat
       /\ count is_InitFromHistoryProvider tr = 0%nat
       /\ count is_InitFromCheckpoints tr = 0%nat.
Proof.
  intros Hs Hk Hp Hn.
  apply useCheckpoints_false in Hs.
  assert (Hst : main_startup w f =
                (startup_prefix f config
                   ++ [NewPrometheusHistoryProvider (historyConfig f d);
                       klog_Fatalf (providerFatalMsg err)],
                 Exits (ExitFatalf (providerFatalMsg err)))).
  { destruct (main_startup_case w f) as [Hk'|c e Hk' Hp'|c d' Hk' Hp' Hu|c d' e Hk' Hp' Hu Hn'|c d' pr Hk' Hp' Hu Hn'];
      rewrite Hk in Hk'; try discriminate Hk'; injection Hk' as <-;
      rewrite Hp in Hp'; try discriminate Hp'; injection Hp' as <-;
      rewrite Hs in Hu; try discriminate Hu;
      rewrite Hn in Hn'; try discriminate Hn'; injection Hn' as <-.
    reflexivity. }
  assert (Hout : outcome_of (main_startup w f) = Exits (ExitFatalf (providerFatalMsg err)))
    by now rewrite Hst.
  split; [exact Hout|].
  split; [now rewrite Hst|].
  split; [unfold main_run; now rewrite Hst|].
  intros sched tr s Hrun.
  destruct (exited_run w f sched tr s _ Hout Hrun) as (-> & -> & ->).
  rewrite Hst. cbn. auto.
Qed.

Lemma history_provider_failure_is_fatal_witness :
  storage (withStorage "prometheus" noFlags) = "prometheus"
  /\ newPrometheusHistoryProvider brokenPrometheusWorld
       (historyConfig (withStorage "prometheus" noFlags) (5 * Minute))
     = Err "parse address: invalid URL"
  /\ outcome_of (main_startup brokenPrometheusWorld (withStorage "prometheus" noFlags))
     = Exits (ExitFatalf (providerFatalMsg "parse address: invalid URL")).
Proof.
  split; [reflexivity|]. split; [reflexivity|].
  exact (proj1 (history_provider_failure_is_fatal brokenPrometheusWorld
                  (withStorage "prometheus" noFlags)
                  (restConfig "" 5%float 10%float) (5 * Minute)
                  "parse address: invalid URL"
                  eq_refl eq_refl eq_refl eq_refl)).
Defined.

(** ** The query timeout and the storage flag *)

(** C10. Whatever the storage mode, checkpoints included, a
    prometheus-query-timeout that [time.ParseDuration] refuses ends the
    process during startup: once the kube config is there the flag is
    parsed and [main] exits through the [klog.Fatalf] of the parse error;
    every run stops there, with no initialiser and no [RunOnce] called. *)
Theorem query_timeout_validated_in_every_mode
    (w : World) (f : Flags) (err : string) :
  ParseDuration w (queryTimeout f) = Err err ->
  exited (main_startup w f) = true
  /\ (forall config,
        createKubeConfigOrDie w (kubeconfig f) (kubeApiQps f) (kubeApiBurst f)
          = Some config ->
        In (time_ParseDuration (queryTimeout f)) (trace_of (main_startup w f))
        /\ In (NewRecommender config (checkpointsGCInterval f) (useCheckpoints f)
                 (vpaObjectNamespace f) (recommenderName f) (postProcessors f))
              (trace_of (main_startup w f))
        /\ last (trace_of (main_startup w f)) klog_InitFlags
             = klog_Fatalf (parseFatalMsg err)
        /\ outcome_of (main_startup w f) = Exits (ExitFatalf (parseFatalMsg err)))
  /\ (forall sched tr s,
        main_run w f sched = Some (tr, s) ->
        sched = []
        /\ (exists x, s = Dead x)
        /\ count is_RunOnce_call tr = 0%nat
        /\ count is_InitFromCheckpoints tr = 0%nat
        /\ count is_InitFromHistoryProvider tr = 0%nat).
Proof.
  intros Hp. unfold exited.
  destruct (main_startup_case w f) as [Hk|c e Hk Hp'|c d Hk Hp' Hu|c d e Hk Hp' Hu Hn|c d pr Hk Hp' Hu Hn];
    try (rewrite Hp in Hp'; discriminate Hp').
  - (* the kube config could not be obtained *)
    split; [reflexivity|]. split.
    + intros config Hk'. rewrite Hk in Hk'. discriminate Hk'.
    + intros sched tr s Hrun.
      destruct (exited_run w f sched tr s ExitKubeConfig) as (-> & -> & ->);
        trivial.
      * destruct (main_startup_case w f); try reflexivity; congruence.
      * destruct (main_startup_case w f); try (cbn; eauto 10; fail); congruence.
  - rewrite Hp in Hp'. injection Hp' as <-.
    split; [reflexivity|]. split.
    + intros config Hk'. rewrite Hk in Hk'. injection Hk' as <-.
      cbn. auto 20.
    + intros sched tr s Hrun.
      destruct (main_run_inv w f sched tr s Hrun) as [Htr [(d & Hd & _)|(x & Hx & -> & ->)]].
      * exfalso.
        destruct (main_startup_case w f); cbn in Hd; congruence.
      * rewrite app_nil_r in Htr. subst tr.
        split; [reflexivity|]. split; [eauto|].
        destruct (main_startup_case w f); cbn; auto; congruence.
Qed.

Lemma query_timeout_validated_in_every_mode_witness :
  useCheckpoints (withQueryTimeout "five minutes" noFlags) = true
  /\ exited (main_startup healthyWorld (withQueryTimeout "five minutes" noFlags)) = true.
Proof.
  split; [reflexivity|].
  exact (proj1 (query_timeout_validated_in_every_mode healthyWorld
                  (withQueryTimeout "five minutes" noFlags)
                  (append "time: invalid duration " (quote "five minutes"))
                  eq_refl)).
Defined.

(** C9. A storage flag that is not exactly "prometheus" selects the
    checkpoints: [useCheckpoints] is true, the startup is the very one of
    the empty default, the history provider is never used, the only
    [klog.Fatalf] that can occur reports the query timeout and not the
    storage flag, and with a kube config and a query timeout that parses
    [main] calls [InitFromCheckpoints] and enters the loop. *)
Theorem other_storage_values_select_checkpoints (w : World) (f : Flags) :
  storage f <> "prometheus" ->
  useCheckpoints f = true
  /\ main_startup w f = main_startup w (withStorage "" f)
  /\ count is_InitFromHistoryProvider (trace_of (main_startup w f)) = 0%nat
  /\ (forall msg,
        In (klog_Fatalf msg) (trace_of (main_startup w f)) ->
        exists err,
          ParseDuration w (queryTimeout f) = Err err /\ msg = parseFatalMsg err)
  /\ (forall config d,
        createKubeConfigOrDie w (kubeconfig f) (kubeApiQps f) (kubeApiBurst f)
          = Some config ->
        ParseDuration w (queryTimeout f) = Ok d ->
        outcome_of (main_startup w f) = Returns (metricsFetcherInterval f)
        /\ count is_InitFromCheckpoints (trace_of (main_startup w f)) = 1%nat
        /\ count is_klog_Fatalf (trace_of (main_startup w f)) = 0%nat).
Proof.
  intros Hs. apply useCheckpoints_true in Hs.
  split; [exact Hs|]. split.
  { unfold main_startup, initClusterState, parseQueryTimeout,
      callCreateKubeConfigOrDie.
    change (useCheckpoints (withStorage "" f)) with true.
    rewrite Hs. reflexivity. }
  destruct (main_startup_case w f) as [Hk|c e Hk Hp|c d Hk Hp Hu|c d e Hk Hp Hu Hn|c d pr Hk Hp Hu Hn];
    try (rewrite Hs in Hu; discriminate Hu);
    (split; [reflexivity|]); split.
  - intros msg Hin. cbn in Hin. intuition discriminate.
  - intros config d Hk'. rewrite Hk in Hk'. discriminate Hk'.
  - intros msg Hin. cbn in Hin.
    repeat (destruct Hin as [Hin|Hin]; [try discriminate Hin|]); try contradiction.
    injection Hin as <-. eauto.
  - intros config d _ Hp'. rewrite Hp in Hp'. discriminate Hp'.
  - intros msg Hin. cbn in Hin. intuition discriminate.
  - intros config d' _ _. cbn. auto.
Qed.

Lemma other_storage_values_select_checkpoints_witness :
  storage (withStorage "historical" noFlags) <> "prometheus"
  /\ useCheckpoints (withStorage "historical" noFlags) = true
  /\ main_startup healthyWorld (withStorage "historical" noFlags)
     = main_startup healthyWorld (withStorage "" (withStorage "historical" noFlags)).
Proof.
  split; [discriminate|].
  pose proof (other_storage_values_select_checkpoints healthyWorld
                (withStorage "historical" noFlags)) as H.
  split; apply H; discriminate.
Defined.

(** ** The two periods *)

(** C8. The garbage-collection interval that [routines.NewRecommender]
    receives is the value of checkpoints-gc-interval, in every call and in
    every run that has the kube config; changing recommender-interval alone
    changes nothing in what [routines.NewRecommender] receives, and changing
    checkpoints-gc-interval alone changes neither the period of the ticker,
    nor the health check's timeout, nor the result of the startup. *)
Theorem gc_interval_is_its_own_flag (w : World) (f : Flags) :
  (forall config gc uc ns name pps,
      In (NewRecommender config gc uc ns name pps) (trace_of (main_startup w f)) ->
      gc = checkpointsGCInterval f)
  /\ (forall config,
        createKubeConfigOrDie w (kubeconfig f) (kubeApiQps f) (kubeApiBurst f)
          = Some config ->
        exists uc ns name pps,
          In (NewRecommender config (checkpointsGCInterval f) uc ns name pps)
             (trace_of (main_startup w f)))
  /\ (forall d,
        filter is_NewRecommender
          (trace_of (main_startup w (withMetricsFetcherInterval d f)))
        = filter is_NewRecommender (trace_of (main_startup w f)))
  /\ (forall g,
        filter is_reconciliation_timer
          (trace_of (main_startup w (withCheckpointsGCInterval g f)))
        = filter is_reconciliation_timer (trace_of (main_startup w f)))
  /\ (forall g,
        outcome_of (main_startup w (withCheckpointsGCInterval g f))
        = outcome_of (main_startup w f)).
Proof.
  split; [|split; [|split; [|split]]].
  - intros config gc uc ns name pps Hin.
    now apply NewRecommender_arguments in Hin.
  - intros config Hk. do 4 eexists. apply (NewRecommender_called w f config Hk).
  - intros d. startup_by_cases w f.
  - intros g. startup_by_cases w f.
  - intros g. startup_by_cases w f.
Qed.

(** ** The loop *)

Lemma count_snoc (p : Event -> bool) (tr : list Event) (e : Event) :
  count p (tr ++ [e]) = (count p tr + if p e then 1 else 0)%nat.
Proof. rewrite count_app, count_cons. cbn. lia. Qed.

Lemma proc_run_snoc (s s' : ProcState) (tr : list Event) (e : Event) :
  proc_run s (tr ++ [e]) = Some s' ->
  exists l, proc_run s tr = Some (Live l) /\ proc_step (Live l) e = Some s'.
Proof.
  rewrite proc_run_app.
  destruct (proc_run s tr) as [[l|x]|]; cbn; try discriminate.
  intros H. exists l. split; [reflexivity|].
  destruct (match e with Signal => _ | _ => _ end); [exact H|discriminate H].
Qed.

(** The states a live loop can step to. *)
Lemma proc_step_live (l : Loop) (e : Event) (s : ProcState) :
  proc_step (Live l) e = Some s ->
  (e = Signal /\ s = Dead ExitSignal)
  \/ (exists l', loop_step l e = Some l' /\ s = Live l' /\ e <> Signal).
Proof.
  destruct e; try (cbn; discriminate);
    try (unfold proc_step;
         destruct (loop_step l _) as [l'|] eqn:Hs; cbn; [|discriminate];
         intros H; injection H as <-; right; exists l';
         split; [reflexivity|split; [reflexivity|discriminate]]).
  cbn. intros H; injection H as <-. left; auto.
Qed.

Lemma loop_balanced (d : Duration) (tr : list Event) :
  forall s, proc_run (Live (loop_init d)) tr = Some s ->
  exists l, balanced tr l /\ (s = Live l \/ s = Dead ExitSignal).
Proof.
  induction tr as [|e tr IH] using rev_ind; intros s Hrun.
  - cbn in Hrun. injection Hrun as <-. exists (loop_init d).
    split; [|now left]. unfold balanced, received, called, returned, buffered.
    cbn. destruct (time_Tick_chan d) as [[|]|] eqn:Ht; cbn; try lia.
    unfold time_Tick_chan in Ht. destruct (d <=? 0); discriminate Ht.
  - apply proc_run_snoc in Hrun as (l1 & Hrun & Hstep).
    destruct (IH _ Hrun) as (l0 & (Hr & Hc & Ht & Hf) & [Hl|Hl]); [|discriminate Hl].
    injection Hl as <-.
    apply proc_step_live in Hstep as [(-> & ->)|(l' & Hstep & -> & _)].
    + exists l1. split; [|now right].
      unfold balanced. rewrite !count_snoc. cbn. lia.
    + exists l'. split; [|now left].
      unfold balanced, received, called, returned, buffered in *.
      rewrite !count_snoc.
      destruct l1 as [c1 t1]; cbn in *.
      destruct e; cbn in Hstep; try discriminate Hstep;
        destruct c1; destruct t1 as [[|]|]; cbn in Hstep;
        try discriminate Hstep; injection Hstep as <-; cbn in *; lia.
Qed.

(** Where a prefix of the trace of a run ends: in the startup, or at a
    state of the loop. *)
Lemma run_prefix (w : World) (f : Flags) sched tr s p q :
  main_run w f sched = Some (tr, s) ->
  tr = p ++ q ->
  (exists r, trace_of (main_startup w f) = p ++ r)
  \/ (exists d p' s',
         outcome_of (main_startup w f) = Returns d
         /\ p = trace_of (main_startup w f) ++ p'
         /\ sched = p' ++ q
         /\ proc_run (Live (loop_init d)) p' = Some s'
         /\ proc_run s' q = Some s).
Proof.
  intros Hrun Htr.
  destruct (main_run_inv w f sched tr s Hrun) as [-> Hcase].
  apply app_eq_app in Htr as (l & [[Hst Hq]|[Hp Hs]]).
  - left; eauto.
  - destruct Hcase as [(d & Hd & Hr)|(x & _ & Hnil & _)].
    + right. subst sched. rewrite proc_run_app in Hr.
      destruct (proc_run (Live (loop_init d)) l) as [s'|] eqn:Hl; [|discriminate].
      exists d, l, s'. auto.
    + left. subst sched. apply app_eq_nil in Hnil as [-> ->].
      exists []. rewrite Hp, !app_nil_r. reflexivity.
Qed.

(** A loop event of the trace of a run lies after the startup. *)
Lemma run_split_at_loop_event (w : World) (f : Flags) sched tr s a e c :
  main_run w f sched = Some (tr, s) ->
  tr = a ++ e :: c ->
  is_loop_event e = true ->
  exists d a' l,
    outcome_of (main_startup w f) = Returns d
    /\ a = trace_of (main_startup w f) ++ a'
    /\ sched = a' ++ e :: c
    /\ proc_run (Live (loop_init d)) a' = Some (Live l)
    /\ proc_run (Live l) (e :: c) = Some s.
Proof.
  intros Hrun Htr He.
  destruct (run_prefix w f sched tr s a (e :: c) Hrun Htr)
    as [(r & Hst)|(d & a' & s' & Hd & Ha & Hs & Hr & Hq)].
  - destruct (main_run_inv w f sched tr s Hrun) as [Htr' Hcase].
    pose proof (startup_no_loop_event w f) as Hno.
    rewrite Hst in Hno, Htr'. rewrite Htr, <- app_assoc in Htr'.
    apply app_inv_head in Htr'.
    destruct r as [|e' r]; cbn in Htr'.
    + destruct Hcase as [(d & Hd & Hr)|(x & _ & Hnil & _)].
      * exists d, [], (loop_init d).
        rewrite Hst, <- Htr', !app_nil_r. subst sched. auto.
      * rewrite Hnil in Htr'. discriminate Htr'.
    + exfalso. injection Htr' as <- _. apply Forall_app in Hno as [_ Hno].
      inversion Hno as [|? ? Hx _]. congruence.
  - destruct s' as [l|x].
    + exists d, a', l. auto.
    + cbn in Hq. discriminate Hq.
Qed.

(** Every prefix of the trace of a run has the counts of some state of the
    loop. *)
Lemma prefix_balanced (w : World) (f : Flags) sched tr s p q :
  main_run w f sched = Some (tr, s) ->
  tr = p ++ q ->
  exists l, balanced p l.
Proof.
  intros Hrun Htr.
  pose proof (startup_no_loop_event w f) as Hno.
  assert (Hzero : forall pr pre,
             (forall e, is_loop_event e = false -> pr e = false) ->
             Forall (fun e => is_loop_event e = false) pre ->
             count pr pre = 0%nat).
  { intros pr pre Hpr Hpre. apply count_none.
    eapply Forall_impl; [|exact Hpre]. auto. }
  destruct (run_prefix w f sched tr s p q Hrun Htr)
    as [(r & Hst)|(d & p' & s' & Hd & -> & _ & Hr & _)].
  - rewrite Hst in Hno. apply Forall_app in Hno as [Hno _].
    exists {| ctl := AtRange; ticker := None |}.
    unfold balanced, received, called, returned, buffered; cbn.
    rewrite !Hzero; trivial; try lia; now intros [].
  - destruct (loop_balanced d p' s' Hr) as (l & Hb & _).
    exists l. unfold balanced in *.
    rewrite !count_app.
    rewrite !(Hzero _ (trace_of (main_startup w f))); trivial; now intros [].
Qed.

Lemma count_positive (p : Event -> bool) (tr : list Event) :
  (0 < count p tr)%nat -> exists e, In e tr /\ p e = true.
Proof.
  induction tr as [|e tr IH]; [cbn; lia|].
  rewrite count_cons. destruct (p e) eqn:He.
  - intros _. exists e. cbn. auto.
  - intros H. destruct IH as (e' & Hin & He'); [cbn in H; lia|].
    exists e'. cbn. auto.
Qed.

(** C4. In every run, at every moment, the calls of [RunOnce] that have
    returned are all the calls made or all but the last one, so that at most
    one execution is open; between two calls of [RunOnce] the first one
    returns; and each call answers a tick of its own, received from the
    channel, which the timer put there with a firing of its own. *)
Theorem runonce_executions_never_overlap
    (w : World) (f : Flags) (sched tr : list Event) (s : ProcState) :
  main_run w f sched = Some (tr, s) ->
  (forall p q,
      tr = p ++ q ->
      (count is_RunOnce_return p <= count is_RunOnce_call p
       /\ count is_RunOnce_call p <= S (count is_RunOnce_return p))%nat)
  /\ (forall a b c,
        tr = a ++ RunOnce_call :: b ++ RunOnce_call :: c ->
        In RunOnce_return b)
  /\ (forall p q,
        tr = p ++ q ->
        (count is_RunOnce_call p <= count is_RecvTick p
         /\ count is_RecvTick p <= count is_TimerFire p)%nat).
Proof.
  intros Hrun.
  assert (Hopen : forall p q,
             tr = p ++ q ->
             (count is_RunOnce_return p <= count is_RunOnce_call p
              /\ count is_RunOnce_call p <= S (count is_RunOnce_return p))%nat).
  { intros p q Htr.
    destruct (prefix_balanced w f sched tr s p q Hrun Htr) as (l & _ & Hc & Ht & _).
    unfold called, returned in *. destruct (ctl l); lia. }
  split; [exact Hopen|]. split.
  - intros a b c Htr.
    destruct (Hopen a (RunOnce_call :: b ++ RunOnce_call :: c) Htr) as [Ha _].
    destruct (Hopen (a ++ RunOnce_call :: b ++ [RunOnce_call]) c) as [_ Hb].
    { rewrite Htr, <- !app_assoc. cbn. rewrite <- app_assoc. reflexivity. }
    rewrite !count_app, !count_cons, !count_app, !count_cons in Hb. cbn in Hb.
    destruct (count_positive is_RunOnce_return b) as (e & Hin & He); [lia|].
    destruct e; try discriminate He. exact Hin.
  - intros p q Htr.
    destruct (prefix_balanced w f sched tr s p q Hrun Htr) as (l & Hr & Hc & _ & Hf).
    unfold received, called, buffered in *. destruct (ctl l); lia.
Qed.

Lemma runonce_executions_never_overlap_witness :
  exists tr s,
    main_run healthyWorld noFlags
      [TimerFire; RecvTick; RunOnce_call; TimerFire; TimerFire; RunOnce_return;
       UpdateLastActivity; RecvTick; RunOnce_call] = Some (tr, s)
    /\ forall a b c,
         tr = a ++ RunOnce_call :: b ++ RunOnce_call :: c -> In RunOnce_return b.
Proof.
  eexists _, _. split; [reflexivity|].
  exact (proj1 (proj2
    (runonce_executions_never_overlap healthyWorld noFlags
       [TimerFire; RecvTick; RunOnce_call; TimerFire; TimerFire; RunOnce_return;
        UpdateLastActivity; RecvTick; RunOnce_call] _ _ eq_refl))).
Defined.

(** ** The health check *)

Lemma last_main_app (a b : list Event) :
  last_main (a ++ b) = fold_left later_main b (last_main a).
Proof. unfold last_main. apply fold_left_app. Qed.

(** When the main goroutine stands before [UpdateLastActivity], the last
    thing it did is to return from [RunOnce]. *)
Lemma at_update_after_return (d : Duration) (tr : list Event) :
  forall l x,
    proc_run (Live (loop_init d)) tr = Some (Live l) ->
    ctl l = AtUpdateLastActivity ->
    fold_left later_main tr x = Some RunOnce_return.
Proof.
  induction tr as [|e tr IH] using rev_ind; intros l x Hrun Hctl.
  - cbn in Hrun. injection Hrun as <-. discriminate Hctl.
  - apply proc_run_snoc in Hrun as (l1 & Hrun & Hstep).
    rewrite fold_left_app. cbn.
    apply proc_step_live in Hstep as [(_ & Hd)|(l' & Hstep & Hl & _)];
      [discriminate Hd|].
    injection Hl as <-.
    destruct e; cbn in Hstep; try discriminate Hstep.
    + (* the timer fires: the main goroutine has not moved *)
      destruct (ticker l1); [|discriminate Hstep].
      injection Hstep as Hl; subst l. cbn in Hctl.
      cbn. apply (IH l1 x Hrun Hctl).
    + destruct (ctl l1), (ticker l1) as [[|]|]; try discriminate Hstep;
        injection Hstep as Hl; subst l; discriminate Hctl.
    + destruct (ctl l1); try discriminate Hstep;
        injection Hstep as Hl; subst l; discriminate Hctl.
    + reflexivity.
    + destruct (ctl l1); try discriminate Hstep;
        injection Hstep as Hl; subst l; discriminate Hctl.
Qed.

(** From there, the next thing it does is [UpdateLastActivity]. *)
Lemma update_follows_return (c : list Event) :
  forall l s,
    proc_run (Live l) c = Some s ->
    ctl l = AtUpdateLastActivity ->
    first_main c = None \/ first_main c = Some UpdateLastActivity.
Proof.
  induction c as [|e c IH]; intros l s Hrun Hctl; [now left|].
  change (proc_run (Live l) (e :: c))
    with (match proc_step (Live l) e with
          | Some s' => proc_run s' c
          | None => None
          end) in Hrun.
  destruct (proc_step (Live l) e) as [s1|] eqn:Hstep; [|discriminate Hrun].
  apply proc_step_live in Hstep as [(-> & ->)|(l' & Hstep & -> & _)].
  - apply proc_run_dead in Hrun as [-> _]. now left.
  - destruct e; cbn in Hstep; try discriminate Hstep;
      try (rewrite Hctl in Hstep; discriminate Hstep).
    + destruct (ticker l); [|discriminate Hstep].
      injection Hstep as Hl; subst l'.
      cbn. apply (IH _ s Hrun). exact Hctl.
    + now right.
Qed.

Lemma main_run_extend (w : World) (f : Flags) sched tr s e s' :
  main_run w f sched = Some (tr, s) ->
  proc_step s e = Some s' ->
  main_run w f (sched ++ [e]) = Some (tr ++ [e], s').
Proof.
  unfold main_run. destruct (main_startup w f) as [st [d|x]].
  - rewrite proc_run_app.
    destruct (proc_run (Live (loop_init d)) sched) as [s1|]; cbn; [|discriminate].
    intros H; injection H as <- <-. intros ->. cbn. now rewrite app_assoc.
  - destruct sched; [|discriminate]. intros H; injection H as <- <-. discriminate.
Qed.

(** C6. In every run, the step of the main goroutine that precedes a call
    of [healthCheck.UpdateLastActivity] is the return of [RunOnce]; the step
    that follows a return of [RunOnce], when there is one, is that call; at
    every moment the calls made are all the returns or all but the last one;
    and once [RunOnce] has returned the call can be made. *)
Theorem last_activity_follows_completed_runonce
    (w : World) (f : Flags) (sched tr : list Event) (s : ProcState) :
  main_run w f sched = Some (tr, s) ->
  (forall a c,
      tr = a ++ UpdateLastActivity :: c ->
      last_main a = Some RunOnce_return)
  /\ (forall a c,
        tr = a ++ RunOnce_return :: c ->
        first_main c = None \/ first_main c = Some UpdateLastActivity)
  /\ (forall p q,
        tr = p ++ q ->
        (count is_UpdateLastActivity p <= count is_RunOnce_return p
         /\ count is_RunOnce_return p <= S (count is_UpdateLastActivity p))%nat)
  /\ (forall l,
        s = Live l ->
        ctl l = AtUpdateLastActivity ->
        main_run w f (sched ++ [UpdateLastActivity])
          = Some (tr ++ [UpdateLastActivity],
                  Live {| ctl := AtRange; ticker := ticker l |})).
Proof.
  intros Hrun. split; [|split; [|split]].
  - intros a c Htr.
    destruct (run_split_at_loop_event w f sched tr s a _ c Hrun Htr eq_refl)
      as (d & a' & l & _ & -> & _ & Ha & Hc).
    rewrite last_main_app.
    apply (at_update_after_return d a' l _ Ha).
    cbn in Hc. destruct (ctl l); try discriminate Hc. reflexivity.
  - intros a c Htr.
    destruct (run_split_at_loop_event w f sched tr s a _ c Hrun Htr eq_refl)
      as (d & a' & l & _ & _ & _ & _ & Hc).
    cbn in Hc. destruct (ctl l) eqn:Hl; try discriminate Hc. cbn in Hc.
    apply (update_follows_return c _ s Hc). reflexivity.
  - intros p q Htr.
    destruct (prefix_balanced w f sched tr s p q Hrun Htr) as (l & _ & _ & Ht & _).
    unfold returned in Ht. destruct (ctl l); lia.
  - intros l -> Hctl.
    apply (main_run_extend w f sched tr (Live l)); trivial.
    cbn. now rewrite Hctl.
Qed.

Lemma last_activity_follows_completed_runonce_witness :
  exists tr s,
    main_run healthyWorld noFlags
      [TimerFire; RecvTick; RunOnce_call; TimerFire; RunOnce_return; TimerFire;
       UpdateLastActivity; TimerFire] = Some (tr, s)
    /\ forall a c,
         tr = a ++ UpdateLastActivity :: c -> last_main a = Some RunOnce_return.
Proof.
  eexists _, _. split; [reflexivity|].
  exact (proj1
    (last_activity_follows_completed_runonce healthyWorld noFlags
       [TimerFire; RecvTick; RunOnce_call; TimerFire; RunOnce_return; TimerFire;
        UpdateLastActivity; TimerFire] _ _ eq_refl)).
Defined.

(** ** Shutdown *)

(** C7, as stated, fails. A signal that arrives while the first [RunOnce]
    is running ends the process with this [RunOnce] called and not
    returned. *)
Lemma signal_interrupts_RunOnce :
  (exists tr,
      main_run healthyWorld noFlags [TimerFire; RecvTick; RunOnce_call; Signal]
        = Some (tr, Dead ExitSignal)
      /\ count is_RunOnce_call tr = 1%nat
      /\ count is_RunOnce_return tr = 0%nat)
  /\ ~ in_flight_RunOnce_finishes healthyWorld noFlags.
Proof.
  split.
  - eexists. split; [reflexivity|]. split; reflexivity.
  - intros H.
    specialize (H [TimerFire; RecvTick; RunOnce_call; Signal] _ _ eq_refl).
    discriminate H.
Qed.

(** Without a signal the loop goes on. *)
Lemma proc_run_stays_live (tr : list Event) :
  forall l s,
    proc_run (Live l) tr = Some s ->
    ~ In Signal tr ->
    exists l', s = Live l'.
Proof.
  induction tr as [|e tr IH]; intros l s Hrun Hno.
  - cbn in Hrun. injection Hrun as <-. eauto.
  - change (proc_run (Live l) (e :: tr))
      with (match proc_step (Live l) e with
            | Some s' => proc_run s' tr
            | None => None
            end) in Hrun.
    destruct (proc_step (Live l) e) as [s1|] eqn:Hstep; [|discriminate Hrun].
    apply proc_step_live in Hstep as [(-> & _)|(l' & _ & -> & _)].
    + exfalso. apply Hno. now left.
    + apply (IH l' s Hrun). intros Hin. apply Hno. now right.
Qed.

(** C7, amended. [main] does not intercept the shutdown signal. From any
    point of the loop a signal ends the process at once and nothing follows
    it; when it arrives during a [RunOnce], this [RunOnce] is left called
    and not returned; and as long as no signal arrives the loop does not
    stop. *)
Theorem shutdown_signal_ends_process_at_once
    (w : World) (f : Flags) (sched tr : list Event) (l : Loop) :
  main_run w f sched = Some (tr, Live l) ->
  main_run w f (sched ++ [Signal]) = Some (tr ++ [Signal], Dead ExitSignal)
  /\ (forall e more, main_run w f (sched ++ Signal :: e :: more) = None)
  /\ (ctl l = InRunOnce ->
      count is_RunOnce_call (tr ++ [Signal])
        = S (count is_RunOnce_return (tr ++ [Signal])))
  /\ (forall sched' tr' s',
        main_run w f sched' = Some (tr', s') ->
        ~ In Signal sched' ->
        exists l', s' = Live l').
Proof.
  intros Hrun.
  destruct (main_run_inv w f sched tr (Live l) Hrun)
    as [Htr [(d & Hd & Hr)|(x & _ & _ & Hx)]]; [|discriminate Hx].
  split; [|split; [|split]].
  - apply (main_run_extend w f sched tr (Live l)); trivial.
  - intros e more. unfold main_run.
    destruct (main_startup w f) as [st o]. cbn in Hd. subst o.
    rewrite proc_run_app, Hr. reflexivity.
  - intros Hctl.
    destruct (loop_balanced d sched (Live l) Hr) as (l0 & (_ & Hc & Ht & _) & [Hl|Hl]);
      [|discriminate Hl].
    injection Hl as <-.
    rewrite !count_snoc. cbn.
    rewrite (count_run_loop is_RunOnce_call w f sched tr (Live l)),
            (count_run_loop is_RunOnce_return w f sched tr (Live l));
      trivial; try (now intros []).
    unfold called, returned in *. rewrite Hctl in *. lia.
  - intros sched' tr' s' Hrun' Hno.
    destruct (main_run_inv w f sched' tr' s' Hrun')
      as [_ [(d' & _ & Hr')|(x & Hx & _)]].
    + apply (proc_run_stays_live sched' _ s' Hr' Hno).
    + rewrite Hd in Hx. discriminate Hx.
Qed.

Lemma shutdown_signal_ends_process_at_once_witness :
  exists tr l,
    main_run healthyWorld noFlags [TimerFire; RecvTick; RunOnce_call]
      = Some (tr, Live l)
    /\ ctl l = InRunOnce
    /\ main_run healthyWorld noFlags ([TimerFire; RecvTick; RunOnce_call] ++ [Signal])
       = Some (tr ++ [Signal], Dead ExitSignal).
Proof.
  eexists _, _. split; [reflexivity|]. split; [reflexivity|].
  exact (proj1
    (shutdown_signal_ends_process_at_once healthyWorld noFlags
       [TimerFire; RecvTick; RunOnce_call] _ _ eq_refl)).
Defined.

(** * Further properties of [main] *)

(** ** The health check's timeout *)

(** X1. As long as five times recommender-interval fits an [int64], the
    health check is created with a timeout of exactly five periods of the
    ticker and with the timeout check switched on; for a positive interval
    the timeout is longer than one period. *)
Theorem health_check_timeout_is_five_periods
    (w : World) (f : Flags) (t : Duration) (c : bool) :
  - 2 ^ 63 <= 5 * metricsFetcherInterval f < 2 ^ 63 ->
  In (NewHealthCheck t c) (trace_of (main_startup w f)) ->
  c = true
  /\ t = 5 * metricsFetcherInterval f
  /\ (forall d, In (time_Tick d) (trace_of (main_startup w f)) -> t = 5 * d)
  /\ (0 < metricsFetcherInterval f -> metricsFetcherInterval f < t).
Proof.
  intros Hrange Hin.
  assert (Ht : t = dmul (metricsFetcherInterval f) 5 /\ c = true).
  { destruct (main_startup_case w f); cbn in Hin;
      repeat (destruct Hin as [Hin|Hin]; [try discriminate Hin|]);
      try contradiction; injection Hin as <- <-; auto. }
  destruct Ht as [-> ->].
  assert (Hmul : dmul (metricsFetcherInterval f) 5 = 5 * metricsFetcherInterval f).
  { unfold dmul. rewrite wrap64_in_range; lia. }
  rewrite Hmul. split; [reflexivity|]. split; [reflexivity|]. split; [|lia].
  intros d Hd.
  destruct (main_startup_case w f); cbn in Hd;
    repeat (destruct Hd as [Hd|Hd]; [try discriminate Hd|]);
    try contradiction; injection Hd as <-; reflexivity.
Qed.

Lemma health_check_timeout_is_five_periods_witness :
  In (NewHealthCheck (5 * Minute) true) (trace_of (main_startup healthyWorld noFlags))
  /\ 5 * Minute = 5 * metricsFetcherInterval noFlags.
Proof.
  assert (Hin : In (NewHealthCheck (5 * Minute) true)
                  (trace_of (main_startup healthyWorld noFlags))).
  { cbn. auto 10. }
  split; [exact Hin|].
  refine (proj1 (proj2
    (health_check_timeout_is_five_periods healthyWorld noFlags (5 * Minute) true
       _ Hin))).
  cbn. lia.
Defined.

(** ** Initialisation comes first *)

(** X2. No [RunOnce] starts on an uninitialised cluster state: in every
    run, what precedes a call of [RunOnce] contains exactly one call of an
    initialiser, exactly one construction of the recommender and no
    [klog.Fatalf]. *)
Theorem no_RunOnce_before_initialisation
    (w : World) (f : Flags) (sched tr : list Event) (s : ProcState)
    (a c : list Event) :
  main_run w f sched = Some (tr, s) ->
  tr = a ++ RunOnce_call :: c ->
  (count is_InitFromCheckpoints a + count is_InitFromHistoryProvider a = 1)%nat
  /\ count is_NewRecommender a = 1%nat
  /\ count is_klog_Fatalf a = 0%nat.
Proof.
  intros Hrun Htr.
  destruct (run_split_at_loop_event w f sched tr s a _ c Hrun Htr eq_refl)
    as (d & a' & l & Hd & -> & _ & Ha & _).
  apply proc_run_loop_events in Ha.
  assert (Hzero : forall p, (forall e, is_loop_event e = true -> p e = false) ->
                            count p a' = 0%nat).
  { intros p Hp. apply count_none. eapply Forall_impl; [|exact Ha]. auto. }
  rewrite !count_app, !Hzero by (now intros []).
  destruct (main_startup_case w f); cbn in Hd; try discriminate Hd; cbn; auto.
Qed.

Lemma no_RunOnce_before_initialisation_witness :
  main_run healthyWorld noFlags [TimerFire; RecvTick; RunOnce_call]
    = Some (trace_of (main_startup healthyWorld noFlags)
              ++ [TimerFire; RecvTick; RunOnce_call],
            Live {| ctl := InRunOnce; ticker := Some false |})
  /\ count is_NewRecommender
       (trace_of (main_startup healthyWorld noFlags) ++ [TimerFire; RecvTick])
     = 1%nat.
Proof.
  assert (Hrun : main_run healthyWorld noFlags [TimerFire; RecvTick; RunOnce_call]
                 = Some (trace_of (main_startup healthyWorld noFlags)
                           ++ [TimerFire; RecvTick; RunOnce_call],
                         Live {| ctl := InRunOnce; ticker := Some false |}))
    by reflexivity.
  assert (Htr : trace_of (main_startup healthyWorld noFlags)
                  ++ [TimerFire; RecvTick; RunOnce_call]
                = (trace_of (main_startup healthyWorld noFlags)
                     ++ [TimerFire; RecvTick]) ++ RunOnce_call :: [])
    by reflexivity.
  split; [exact Hrun|].
  exact (proj1 (proj2
    (no_RunOnce_before_initialisation healthyWorld noFlags
       [TimerFire; RecvTick; RunOnce_call] _ _ _ [] Hrun Htr))).
Defined.

(** ** What the modes use *)

(** X3. In checkpoint mode the flags of the Prometheus history provider
    are dead: replacing all of them changes neither the startup nor any
    run, and [history.NewPrometheusHistoryProvider] is never called. *)
Theorem checkpoint_mode_ignores_prometheus_flags (w : World) (f h : Flags) :
  storage f <> "prometheus" ->
  main_startup w (withHistoryFlagsOf h f) = main_startup w f
  /\ (forall sched, main_run w (withHistoryFlagsOf h f) sched = main_run w f sched)
  /\ count is_NewPrometheusHistoryProvider (trace_of (main_startup w f)) = 0%nat.
Proof.
  intros Hs. apply useCheckpoints_true in Hs.
  assert (Heq : main_startup w (withHistoryFlagsOf h f) = main_startup w f).
  { unfold main_startup, initClusterState, parseQueryTimeout,
      callCreateKubeConfigOrDie.
    change (useCheckpoints (withHistoryFlagsOf h f)) with (useCheckpoints f).
    rewrite Hs. reflexivity. }
  split; [exact Heq|]. split.
  - intros sched. unfold main_run. now rewrite Heq.
  - destruct (main_startup_case w f) as [Hk|c e Hk Hp|c d Hk Hp Hu|c d e Hk Hp Hu Hn|c d pr Hk Hp Hu Hn];
      try (rewrite Hs in Hu; discriminate Hu); reflexivity.
Qed.

Lemma checkpoint_mode_ignores_prometheus_flags_witness :
  storage noFlags <> "prometheus"
  /\ main_startup healthyWorld
       (withHistoryFlagsOf (withStorage "prometheus" noFlags) noFlags)
     = main_startup healthyWorld noFlags.
Proof.
  split; [discriminate|].
  refine (proj1 (checkpoint_mode_ignores_prometheus_flags healthyWorld noFlags
                   (withStorage "prometheus" noFlags) _)).
  discriminate.
Defined.

(** X4. The boolean handed to [routines.NewRecommender] and the initialiser
    that is called agree: when [InitFromCheckpoints] is called the
    recommender was built with [useCheckpoints] true, and when
    [InitFromHistoryProvider] is called it was built with [useCheckpoints]
    false and for the namespace of the provider's configuration. *)
Theorem recommender_mode_matches_initialiser
    (w : World) (f : Flags) config gc uc ns name pps :
  In (NewRecommender config gc uc ns name pps) (trace_of (main_startup w f)) ->
  (In InitFromCheckpoints (trace_of (main_startup w f)) -> uc = true)
  /\ (forall provider,
        In (InitFromHistoryProvider provider) (trace_of (main_startup w f)) ->
        uc = false
        /\ forall cfg,
             In (NewPrometheusHistoryProvider cfg) (trace_of (main_startup w f)) ->
             Namespace cfg = ns).
Proof.
  intros Hin.
  apply NewRecommender_arguments in Hin as (_ & _ & -> & -> & _ & _).
  destruct (main_startup_case w f) as [Hk|c e Hk Hp|c d Hk Hp Hu|c d e Hk Hp Hu Hn|c d pr Hk Hp Hu Hn];
    (split; [intros Hc|intros provider Hp'; [split; [|intros cfg Hcfg]]]);
    cbn in *;
    repeat match goal with
           | H : _ \/ _ |- _ => destruct H as [H|H]; [try discriminate H|]
           | H : False |- _ => contradiction
           end;
    try assumption;
    try (injection Hcfg as <-; reflexivity).
Qed.

Lemma recommender_mode_matches_initialiser_witness :
  exists config gc uc ns name pps,
    In (NewRecommender config gc uc ns name pps)
       (trace_of (main_startup healthyWorld noFlags))
    /\ In InitFromCheckpoints (trace_of (main_startup healthyWorld noFlags))
    /\ uc = true.
Proof.
  assert (Hin : In (NewRecommender (restConfig "" 5%float 10%float)
                      (checkpointsGCInterval noFlags) (useCheckpoints noFlags)
                      (vpaObjectNamespace noFlags) (recommenderName noFlags)
                      (postProcessors noFlags))
                  (trace_of (main_startup healthyWorld noFlags))).
  { cbn. auto 12. }
  assert (Hc : In InitFromCheckpoints (trace_of (main_startup healthyWorld noFlags))).
  { cbn. auto 15. }
  do 6 eexists. split; [exact Hin|]. split; [exact Hc|].
  exact (proj1 (recommender_mode_matches_initialiser healthyWorld noFlags
                  _ _ _ _ _ _ Hin) Hc).
Defined.

(** X5. The provider whose history is loaded is the one built from the
    command line: when [InitFromHistoryProvider] is called, the storage flag
    is "prometheus", the query timeout parsed, and the provider is the
    result of [history.NewPrometheusHistoryProvider] on the configuration
    made of the flags with that parsed timeout, a call that is in the
    trace. *)
Theorem loaded_history_provider_is_the_configured_one
    (w : World) (f : Flags) (provider : HistoryProvider) :
  In (InitFromHistoryProvider provider) (trace_of (main_startup w f)) ->
  storage f = "prometheus"
  /\ exists d,
       ParseDuration w (queryTimeout f) = Ok d
       /\ newPrometheusHistoryProvider w (historyConfig f d) = Ok provider
       /\ QueryTimeout (historyConfig f d) = d
       /\ In (NewPrometheusHistoryProvider (historyConfig f d))
             (trace_of (main_startup w f))
       /\ outcome_of (main_startup w f) = Returns (metricsFetcherInterval f).
Proof.
  intros Hin.
  destruct (main_startup_case w f) as [Hk|c e Hk Hp|c d Hk Hp Hu|c d e Hk Hp Hu Hn|c d pr Hk Hp Hu Hn];
    cbn in Hin;
    repeat (destruct Hin as [Hin|Hin]; [try discriminate Hin|]);
    try contradiction.
  injection Hin as <-.
  split; [now apply useCheckpoints_false|].
  exists d. cbn. auto 20.
Qed.

Lemma loaded_history_provider_is_the_configured_one_witness :
  exists provider,
    In (InitFromHistoryProvider provider)
       (trace_of (main_startup healthyWorld (withStorage "prometheus" noFlags)))
    /\ storage (withStorage "prometheus" noFlags) = "prometheus".
Proof.
  assert (Hin : In (InitFromHistoryProvider
                      (prometheusHistoryProvider
                         (historyConfig (withStorage "prometheus" noFlags) (5 * Minute))))
                  (trace_of (main_startup healthyWorld
                               (withStorage "prometheus" noFlags)))).
  { cbn. auto 20. }
  eexists. split; [exact Hin|].
  exact (proj1 (loaded_history_provider_is_the_configured_one healthyWorld
                  (withStorage "prometheus" noFlags) _ Hin)).
Defined.

(** ** The ticker *)

Lemma startup_returns_interval (w : World) (f : Flags) (d : Duration) :
  outcome_of (main_startup w f) = Returns d -> d = metricsFetcherInterval f.
Proof.
  destruct (main_startup_case w f); cbn; congruence.
Qed.

Lemma startup_initialises_once (w : World) (f : Flags) :
  exited (main_startup w f) = false ->
  (count is_InitFromCheckpoints (trace_of (main_startup w f))
   + count is_InitFromHistoryProvider (trace_of (main_startup w f)) = 1)%nat.
Proof.
  unfold exited.
  destruct (main_startup_case w f); cbn; intros Hex;
    try discriminate Hex; reflexivity.
Qed.

(** X6. A recommender-interval that is zero or negative gives a nil ticker:
    the startup is unchanged, the initialiser included, but the loop never
    receives a tick, so [RunOnce] and [UpdateLastActivity] are never called;
    the only thing that can still happen to the process is a signal. *)
Theorem nonpositive_interval_never_runs
    (w : World) (f : Flags) (sched tr : list Event) (s : ProcState) :
  metricsFetcherInterval f <= 0 ->
  main_run w f sched = Some (tr, s) ->
  (sched = [] \/ sched = [Signal])
  /\ count is_RunOnce_call tr = 0%nat
  /\ count is_UpdateLastActivity tr = 0%nat
  /\ (exited (main_startup w f) = false ->
      (count is_InitFromCheckpoints tr + count is_InitFromHistoryProvider tr = 1)%nat).
Proof.
  intros Hd Hrun.
  assert (Hsched : sched = [] \/ sched = [Signal]).
  { destruct (main_run_inv w f sched tr s Hrun) as [_ [(d & Hout & Hr)|(x & _ & -> & _)]];
      [|now left].
    apply startup_returns_interval in Hout. subst d.
    unfold loop_init, time_Tick_chan in Hr.
    destruct (Z.leb_spec (metricsFetcherInterval f) 0) as [_|Hpos]; [|lia].
    destruct sched as [|e more]; [now left|]. right.
    destruct e; cbn in Hr; try discriminate Hr.
    apply proc_run_dead in Hr as [-> _]. reflexivity. }
  split; [exact Hsched|].
  rewrite (count_run_loop is_RunOnce_call w f sched tr s),
          (count_run_loop is_UpdateLastActivity w f sched tr s);
    trivial; try (now intros []).
  split; [|split].
  - destruct Hsched as [-> | ->]; reflexivity.
  - destruct Hsched as [-> | ->]; reflexivity.
  - intros Hex.
    rewrite (count_run_startup is_InitFromCheckpoints w f sched tr s),
            (count_run_startup is_InitFromHistoryProvider w f sched tr s);
      trivial; try (now intros []).
    apply (startup_initialises_once w f Hex).
Qed.

Lemma nonpositive_interval_never_runs_witness :
  metricsFetcherInterval (withMetricsFetcherInterval 0 noFlags) <= 0
  /\ exists tr,
       main_run healthyWorld (withMetricsFetcherInterval 0 noFlags) [Signal]
         = Some (tr, Dead ExitSignal)
       /\ count is_RunOnce_call tr = 0%nat.
Proof.
  split; [cbn; lia|].
  eexists. split; [reflexivity|].
  refine (proj1 (proj2
    (nonpositive_interval_never_runs healthyWorld
       (withMetricsFetcherInterval 0 noFlags) [Signal] _ _ _ eq_refl))).
  cbn. lia.
Defined.

(** What a continuation can receive and call, from the state it starts in. *)
Lemma continuation_counts (more : list Event) :
  forall l s,
    proc_run (Live l) more = Some s ->
    (count is_RecvTick more <= count is_TimerFire more + buffered l)%nat
    /\ (count is_RunOnce_call more <= count is_RecvTick more + awaiting_call l)%nat.
Proof.
  induction more as [|e more IH]; intros l s Hrun; [cbn; lia|].
  change (proc_run (Live l) (e :: more))
    with (match proc_step (Live l) e with
          | Some s' => proc_run s' more
          | None => None
          end) in Hrun.
  destruct (proc_step (Live l) e) as [s1|] eqn:Hstep; [|discriminate Hrun].
  apply proc_step_live in Hstep as [(-> & ->)|(l' & Hstep & -> & _)].
  - apply proc_run_dead in Hrun as [-> _]. cbn. lia.
  - destruct (IH l' s Hrun) as [Hr Hc].
    rewrite !count_cons.
    unfold buffered, awaiting_call in *.
    destruct l as [c t].
    destruct e; cbn in Hstep; try discriminate Hstep;
      destruct c; destruct t as [[|]|]; cbn in Hstep;
      try discriminate Hstep; injection Hstep as Hl; subst l';
      cbn in *; lia.
Qed.

Lemma main_run_continue (w : World) (f : Flags) sched more tr s tr' s' :
  main_run w f sched = Some (tr, s) ->
  main_run w f (sched ++ more) = Some (tr', s') ->
  proc_run s more = Some s' /\ tr' = tr ++ more.
Proof.
  unfold main_run. destruct (main_startup w f) as [st [d|x]].
  - rewrite proc_run_app.
    destruct (proc_run (Live (loop_init d)) sched) as [s1|]; cbn; [|discriminate].
    intros H; injection H as <- <-.
    destruct (proc_run s1 more) as [s2|]; cbn; [|discriminate].
    intros H; injection H as <- <-. now rewrite app_assoc.
  - destruct sched; [|discriminate]. intros H; injection H as <- <-.
    cbn. destruct more; [|discriminate].
    intros H; injection H as <- <-. now rewrite app_nil_r.
Qed.

(** X7. Ticks do not pile up. However often the timer fired so far, for
    instance during a long [RunOnce], what follows without a new firing
    receives at most one tick; and when it starts inside [RunOnce], before
    the update or at the [range], it calls [RunOnce] at most once more. *)
Theorem ticks_do_not_pile_up
    (w : World) (f : Flags) (sched more tr tr' : list Event)
    (l : Loop) (s' : ProcState) :
  main_run w f sched = Some (tr, Live l) ->
  main_run w f (sched ++ more) = Some (tr', s') ->
  count is_TimerFire more = 0%nat ->
  (count is_RecvTick more <= 1)%nat
  /\ (ctl l <> AtRunOnce -> (count is_RunOnce_call more <= 1)%nat).
Proof.
  intros Hrun Hmore Hfire.
  destruct (main_run_continue w f sched more tr (Live l) tr' s' Hrun Hmore)
    as [Hr _].
  destruct (continuation_counts more l s' Hr) as [Hrecv Hcall].
  assert (Hb : (buffered l <= 1)%nat).
  { unfold buffered. destruct (ticker l) as [[|]|]; lia. }
  split; [lia|].
  intros Hctl. unfold awaiting_call in Hcall.
  destruct (ctl l); try lia. now contradiction Hctl.
Qed.

Lemma ticks_do_not_pile_up_witness :
  exists tr l tr' s',
    main_run healthyWorld noFlags
      [TimerFire; RecvTick; RunOnce_call; TimerFire; TimerFire; TimerFire]
      = Some (tr, Live l)
    /\ main_run healthyWorld noFlags
         ([TimerFire; RecvTick; RunOnce_call; TimerFire; TimerFire; TimerFire]
            ++ [RunOnce_return; UpdateLastActivity; RecvTick; RunOnce_call;
                RunOnce_return; UpdateLastActivity])
       = Some (tr', s')
    /\ (count is_RecvTick
          [RunOnce_return; UpdateLastActivity; RecvTick; RunOnce_call;
           RunOnce_return; UpdateLastActivity] <= 1)%nat.
Proof.
  eexists _, _, _, _. split; [reflexivity|]. split; [reflexivity|].
  exact (proj1
    (ticks_do_not_pile_up healthyWorld noFlags
       [TimerFire; RecvTick; RunOnce_call; TimerFire; TimerFire; TimerFire]
       [RunOnce_return; UpdateLastActivity; RecvTick; RunOnce_call;
        RunOnce_return; UpdateLastActivity]
       _ _ _ _ eq_refl eq_refl eq_refl)).
Defined.
